(** * A shallow embedding of obsidian.syncthing.deconflicter.py

    Python [str] values are modelled as Stdlib [string]s (ASCII).  The
    character classes [\d] and [\w] of the regular expressions are taken
    on ASCII: [0-9] and [A-Za-z0-9_].  Times ([time.time], [getmtime]) are
    integers.  External programs ([pgrep], [git merge-file]), the HTTP
    status endpoint and the directory walks are oracles of an environment
    record; the working tree is a map from paths to contents that the
    program threads through a small state-and-exception monad. *)

From Stdlib Require Import String Ascii List ZArith Lia Bool.
From Stdlib Require Import Numbers.DecimalString.
Import ListNotations.
Open Scope string_scope.

(* ------------------------------------------------------------------ *)
(** ** Configuration *)

Definition STVERSIONS_DIR : string := ".stversions".
Definition SYNCTHING_URL : string := "http://localhost:8384".
Definition CHECK_DIR : string := ".".
Definition MIN_IDLE_TIME : Z := 600.

Definition newline : ascii := Ascii.ascii_of_nat 10.

(* ------------------------------------------------------------------ *)
(** ** Small string helpers *)

Notation "'let?' x ':=' e 'in' k" :=
  (match e with Some x => k | None => None end)
  (at level 200, x name, e at level 100, k at level 200).

(** Consume the literal [lit] at the front of [s]. *)
Fixpoint strip_lit (lit s : string) : option string :=
  match lit with
  | EmptyString => Some s
  | String c lit' =>
      match s with
      | String c' s' => if Ascii.eqb c c' then strip_lit lit' s' else None
      | EmptyString => None
      end
  end.

(** Consume exactly [n] characters of the class [p] ([\d{n}], [\w{n}]). *)
Fixpoint take_class (p : ascii -> bool) (n : nat) (s : string) : option string :=
  match n with
  | O => Some s
  | S n' =>
      match s with
      | String c s' => if p c then take_class p n' s' else None
      | EmptyString => None
      end
  end.

Definition is_digit (c : ascii) : bool :=
  let n := Ascii.nat_of_ascii c in (48 <=? n)%nat && (n <=? 57)%nat.

Definition is_word (c : ascii) : bool :=
  let n := Ascii.nat_of_ascii c in
  is_digit c || ((65 <=? n)%nat && (n <=? 90)%nat)
  || ((97 <=? n)%nat && (n <=? 122)%nat) || (n =? 95)%nat.

(** Python's [str(n)] on a non-negative int. *)
Definition str_of_nat (n : nat) : string :=
  NilEmpty.string_of_uint (Nat.to_uint n).

(** Python's [sep.join(xs)]. *)
Fixpoint join (sep : string) (xs : list string) : string :=
  match xs with
  | [] => ""
  | [x] => x
  | x :: xs' => x ++ sep ++ join sep xs'
  end.

(* ------------------------------------------------------------------ *)
(** ** CONFLICT_REGEX

    [^( .*? )(?:\.|%2F)sync-conflict-\d{8}-\d{6}-\w{7}\.?( .* )$]
    (spaces added inside the groups) used with
    [re.match].  The functions below follow the backtracking order of
    Python's engine: the lazy group 1 grows one (non-newline) character at
    a time, the alternation tries [\.] before [%2F], [\.?] first consumes
    a dot, and the greedy group 2 gives characters back until [$] holds
    ([$] holds at the end of the string and before a final newline). *)

(** [$] without MULTILINE. *)
Definition dollar (t : string) : bool :=
  match t with
  | EmptyString => true
  | String c EmptyString => Ascii.eqb c newline
  | _ => false
  end.

(** Group 2, [( .* )], followed by [$]: returns group 2. *)
Fixpoint dot_star_dollar (r : string) : option string :=
  match r with
  | EmptyString => if dollar r then Some EmptyString else None
  | String c r' =>
      if Ascii.eqb c newline then
        (if dollar r then Some EmptyString else None)
      else
        match dot_star_dollar r' with
        | Some g => Some (String c g)
        | None => if dollar r then Some EmptyString else None
        end
  end.

(** [\.?( .* )$] *)
Definition opt_dot_group (r : string) : option string :=
  match r with
  | String c r' =>
      if Ascii.eqb c "." then
        match dot_star_dollar r' with
        | Some g => Some g
        | None => dot_star_dollar r
        end
      else dot_star_dollar r
  | EmptyString => dot_star_dollar r
  end.

(** [sync-conflict-\d{8}-\d{6}-\w{7}]: returns the rest of the input. *)
Definition marker_rest (s : string) : option string :=
  let? s1 := strip_lit "sync-conflict-" s in
  let? s2 := take_class is_digit 8 s1 in
  let? s3 := strip_lit "-" s2 in
  let? s4 := take_class is_digit 6 s3 in
  let? s5 := strip_lit "-" s4 in
  take_class is_word 7 s5.

Definition after_sep (s : string) : option string :=
  let? s1 := marker_rest s in opt_dot_group s1.

(** [(?:\.|%2F)] followed by the rest of the pattern. *)
Definition try_sep (s : string) : option string :=
  match (let? s1 := strip_lit "." s in after_sep s1) with
  | Some g => Some g
  | None => let? s1 := strip_lit "%2F" s in after_sep s1
  end.

(** [^( .*? )...]: the lazy group 1, then the rest. *)
Fixpoint lazy_base (s : string) : option (string * string) :=
  match try_sep s with
  | Some g => Some (EmptyString, g)
  | None =>
      match s with
      | EmptyString => None
      | String c s' =>
          if Ascii.eqb c newline then None
          else
            match lazy_base s' with
            | Some (b, g) => Some (String c b, g)
            | None => None
            end
      end
  end.

(** [CONFLICT_REGEX.match(path)], with [match.groups()] on success. *)
Definition CONFLICT_REGEX_match (path : string) : option (string * string) :=
  lazy_base path.

(** Every character of [s] is in the class [p]. *)
Fixpoint all_class (p : ascii -> bool) (s : string) : bool :=
  match s with
  | EmptyString => true
  | String c s' => p c && all_class p s'
  end.

Definition no_newline (s : string) : bool :=
  all_class (fun c => negb (Ascii.eqb c newline)) s.

Definition nl_str : string := String newline EmptyString.

(** A base name with no dot, no [%] and no newline. *)
Definition plain_base (s : string) : bool :=
  all_class (fun c => negb (Ascii.eqb c ".") && negb (Ascii.eqb c "%")
                      && negb (Ascii.eqb c newline)) s.

(** [sync-conflict-\d{8}-\d{6}-\w{7}] spelt out by its pieces. *)
Definition marker_of (d8 d6 w7 : string) : string :=
  "sync-conflict-" ++ d8 ++ "-" ++ d6 ++ "-" ++ w7.

Definition marker_pieces_ok (d8 d6 w7 : string) : Prop :=
  String.length d8 = 8%nat /\ all_class is_digit d8 = true
  /\ String.length d6 = 6%nat /\ all_class is_digit d6 = true
  /\ String.length w7 = 7%nat /\ all_class is_word w7 = true.

(* ------------------------------------------------------------------ *)
(** ** The backup pattern of find_backup_file

    [rf"{re.escape(STVERSIONS_DIR)}/{re.escape(conflict_base)}~\d{{8}}-\d{{6}}\." + re.escape(ext)]
    used with [pattern.match] (anchored at the start only). *)

Definition backup_pattern_match (conflict_base ext candidate : string) : bool :=
  match
    (let? r1 := strip_lit (STVERSIONS_DIR ++ "/" ++ conflict_base ++ "~") candidate in
     let? r2 := take_class is_digit 8 r1 in
     let? r3 := strip_lit "-" r2 in
     let? r4 := take_class is_digit 6 r3 in
     let? r5 := strip_lit "." r4 in
     strip_lit ext r5)
  with
  | Some _ => true
  | None => false
  end.

(** The walk of [STVERSIONS_DIR]: [candidates] are the relative paths in
    [os.walk] order; the first match is returned. *)
Fixpoint find_backup_file (conflict_base ext : string) (candidates : list string)
  : option string :=
  match candidates with
  | [] => None
  | c :: cs =>
      if backup_pattern_match conflict_base ext c then Some c
      else find_backup_file conflict_base ext cs
  end.

(* ------------------------------------------------------------------ *)
(** ** The environment and the world *)

(** Outcome of running an external program: its exit status, or the
    OS error raised by [subprocess] when the program cannot be started. *)
Inductive proc_outcome : Type :=
| Exited (code : Z)
| LaunchError.

(** What [pgrep -x Obsidian] meets: a process table, a failure of pgrep
    itself (a syntax error, exit 2, or a fatal error, exit 3), or no pgrep
    to start. *)
Inductive proc_query : Type :=
| QTable (names : list string)
| QSyntaxError
| QFatal
| QNoLaunch.

(** [pgrep -x name]: exit 0 when some process is named exactly [name],
    exit 1 when none is. *)
Definition pgrep_x (name : string) (q : proc_query) : proc_outcome :=
  match q with
  | QTable ns => Exited (if existsb (String.eqb name) ns then 0 else 1)
  | QSyntaxError => Exited 2
  | QFatal => Exited 3
  | QNoLaunch => LaunchError
  end.

(** Outcome of the status request: the value of the [state] field of a
    JSON object body (None when absent), or any exception of the request,
    [raise_for_status] or the decoding, with its message. *)
Inductive sync_outcome : Type :=
| SyncOk (state : option string)
| SyncFail (err : string).

(** [os.path.getmtime] on a listed file: its time, FileNotFoundError
    when the file vanished after the walk listed it, or another OSError
    (a symlink loop, a directory that cannot be searched), named by its
    errno. *)
Inductive stat_outcome : Type :=
| Mtime (t : Z)
| Vanished
| StatError (errno : string).

Definition fs_t : Type := string -> option string.

Record env : Type := mkEnv {
  proc_table : proc_query;
  folder_id : option string;                     (* SYNCTHING_FOLDER_ID *)
  sync_status : string -> sync_outcome;          (* GET url *)
  now : Z;                                       (* time.time() *)
  idle_walk : list (string * stat_outcome);      (* os.walk(CHECK_DIR) *)
  tree_walk : list string;                       (* os.walk("."), relative *)
  backup_walk : list string;                     (* os.walk(STVERSIONS_DIR) *)
  (* git merge-file --union original backup conflict: exit status and the
     new contents it writes to [original] *)
  git_merge_file : string -> string -> string -> fs_t -> proc_outcome * option string
}.

(** Observable actions of a run. *)
Inductive event : Type :=
| EvPgrep
| EvSyncGet (url : string)
| EvIdleWalk (root : string)
| EvSleep
| EvTreeWalk (root : string)
| EvIsFile (path : string)
| EvBackupWalk (root : string)
| EvMerge (original backup conflict : string)
| EvRemove (path : string)
| EvLog (message : string).

Inductive exn : Type :=
| FileNotFoundError (what : string)
| OSError (errno : string).

Record world : Type := mkWorld {
  fs : fs_t;
  trace : list event
}.

Inductive result (A : Type) : Type :=
| Ok (a : A)
| Raise (e : exn).
Arguments Ok {A} a.
Arguments Raise {A} e.

Definition M (A : Type) : Type := world -> result A * world.

Definition ret {A} (a : A) : M A := fun w => (Ok a, w).
Definition raise {A} (e : exn) : M A := fun w => (Raise e, w).
Definition bind {A B} (m : M A) (k : A -> M B) : M B :=
  fun w => match m w with
           | (Ok a, w') => k a w'
           | (Raise e, w') => (Raise e, w')
           end.

Notation "x <- m ;; k" := (bind m (fun x => k))
  (at level 61, m at next level, right associativity).
Notation "m ;;; k" := (bind m (fun _ => k))
  (at level 61, right associativity).

Definition emit (ev : event) : M unit :=
  fun w => (Ok tt, mkWorld (fs w) (trace w ++ [ev])).

Definition get_fs : M fs_t := fun w => (Ok (fs w), w).

Definition fs_update (f : fs_t) (p : string) (v : option string) : fs_t :=
  fun q => if String.eqb q p then v else f q.

Definition put_file (p : string) (v : option string) : M unit :=
  fun w => (Ok tt, mkWorld (fs_update (fs w) p v) (trace w)).

(* ------------------------------------------------------------------ *)
(** ** Utilities *)

(** [log_run]: one line appended to the log (the timestamp is elided). *)
Definition log_run (message : string) : M unit := emit (EvLog message).

Definition is_obsidian_running (e : env) : M bool :=
  emit EvPgrep ;;;
  match pgrep_x "Obsidian" (proc_table e) with
  | Exited 0 => ret true                   (* check_output returns *)
  | Exited _ => ret false                  (* CalledProcessError *)
  | LaunchError => raise (FileNotFoundError "pgrep")
  end.

(** Python's f-string of an [Optional[str]]. *)
Definition fmt_opt (o : option string) : string :=
  match o with Some s => s | None => "None" end.

Definition status_url (fid : option string) : string :=
  SYNCTHING_URL ++ "/rest/db/status?folder=" ++ fmt_opt fid.

Definition is_syncthing_idle (e : env) (fid : option string) : M bool :=
  let url := status_url fid in
  emit (EvSyncGet url) ;;;
  match sync_status e url with
  | SyncOk st =>
      ret (match st with Some s => String.eqb s "idle" | None => false end)
  | SyncFail err =>
      log_run ("Error checking Syncthing status: " ++ err) ;;; ret false
  end.

(** The loop of [no_recent_file_changes] over the files of the walk, with
    the outcome of [getmtime] for each: [except FileNotFoundError]
    skips a vanished file, any other OSError leaves the function. *)
Fixpoint no_recent_file_changes (now seconds : Z) (files : list (string * stat_outcome))
  : result bool :=
  match files with
  | [] => Ok true
  | (_, Mtime t) :: rest =>
      if Z.ltb (now - seconds) t then Ok false
      else no_recent_file_changes now seconds rest
  | (_, Vanished) :: rest => no_recent_file_changes now seconds rest
  | (_, StatError errno) :: _ => Raise (OSError errno)
  end.

(** A listed file that lets the loop go on: an old modification time, or
    a file that vanished. *)
Definition settled (now seconds : Z) (o : stat_outcome) : bool :=
  match o with
  | Mtime t => Z.leb t (now - seconds)
  | Vanished => true
  | StatError _ => false
  end.

(** A computed result run as a step of the monad. *)
Definition of_result {A : Type} (r : result A) : M A := fun w => (r, w).

(* ------------------------------------------------------------------ *)
(** ** Merging logic *)

Definition find_conflict_files (rel_paths : list string) : list string :=
  filter (fun p => match CONFLICT_REGEX_match p with Some _ => true | None => false end)
         rel_paths.

Definition os_path_isfile (p : string) : M bool :=
  emit (EvIsFile p) ;;;
  f <- get_fs ;;
  ret (match f p with Some _ => true | None => false end).

Definition os_remove (p : string) : M unit :=
  f <- get_fs ;;
  match f p with
  | None => raise (FileNotFoundError p)
  | Some _ => put_file p None ;;; emit (EvRemove p)
  end.

Definition find_backup_file_io (e : env) (conflict_base ext : string) : M (option string) :=
  emit (EvBackupWalk STVERSIONS_DIR) ;;;
  ret (find_backup_file conflict_base ext (backup_walk e)).

Definition merge_files (e : env) (original backup conflict : string) : M bool :=
  emit (EvMerge original backup conflict) ;;;
  f <- get_fs ;;
  match git_merge_file e original backup conflict f with
  | (LaunchError, _) => raise (FileNotFoundError "git")
  | (Exited code, written) =>
      match written with
      | Some c => put_file original (Some c)
      | None => ret tt
      end ;;;
      ret (Z.eqb code 0)
  end.

Definition original_of (base_name ext : string) : string :=
  if String.eqb ext "" then base_name else base_name ++ "." ++ ext.

Definition process_conflict (e : env) (conflict_path : string) : M bool :=
  match CONFLICT_REGEX_match conflict_path with
  | None => ret false
  | Some (base_name, ext) =>
      let original := original_of base_name ext in
      ex <- os_path_isfile original ;;
      if negb ex then ret false else
      backup <- find_backup_file_io e base_name ext ;;
      match backup with
      | None => ret false
      | Some b =>
          if String.eqb b "" then ret false else   (* if not backup *)
          ok <- merge_files e original b conflict_path ;;
          if ok then os_remove conflict_path ;;; ret true
          else ret false
      end
  end.

(* ------------------------------------------------------------------ *)
(** ** Main *)

Fixpoint resolve_all (e : env) (conflicts : list string) : M (list string) :=
  match conflicts with
  | [] => ret []
  | c :: cs =>
      ok <- process_conflict e c ;;
      rest <- resolve_all e cs ;;
      ret (if ok then c :: rest else rest)
  end.

Definition summary_of (resolved_files : list string) : string :=
  match resolved_files with
  | [] => "No conflicts found"
  | _ => "Resolved " ++ str_of_nat (length resolved_files) ++ " conflict(s): "
         ++ join ", " resolved_files
  end.

Definition main (e : env) : M unit :=
  running <- is_obsidian_running e ;;
  if running then log_run "Skipped: Obsidian is running" else
  idle <- is_syncthing_idle e (folder_id e) ;;
  if negb idle then log_run "Skipped: Syncthing is active" else
  emit (EvIdleWalk CHECK_DIR) ;;;
  quiet <- of_result (no_recent_file_changes (now e) MIN_IDLE_TIME (idle_walk e)) ;;
  if negb quiet then log_run "Skipped: recent file changes detected" else
  emit EvSleep ;;;
  emit (EvTreeWalk ".") ;;;
  let conflicts := find_conflict_files (tree_walk e) in
  resolved_files <- resolve_all e conflicts ;;
  log_run (summary_of resolved_files).

(* ------------------------------------------------------------------ *)
(** ** Observations of a run *)

(** The messages of the log lines in a trace. *)
Fixpoint logs_of (tr : list event) : list string :=
  match tr with
  | [] => []
  | EvLog m :: tr' => m :: logs_of tr'
  | _ :: tr' => logs_of tr'
  end.

(** A computation that only appends to the trace, and appends no log line. *)
Definition appends_quiet {A : Type} (m : M A) : Prop :=
  forall w, exists t, trace (snd (m w)) = (trace w ++ t)%list /\ logs_of t = [].

(** A computation that never brings a file into existence. *)
Definition never_creates {A : Type} (m : M A) : Prop :=
  forall w q, fs w q = None -> fs (snd (m w)) q = None.

(** A computation that only appends to the trace, at most [n] log lines. *)
Definition logs_at_most {A : Type} (n : nat) (m : M A) : Prop :=
  forall w, exists t, trace (snd (m w)) = (trace w ++ t)%list /\ (length (logs_of t) <= n)%nat.

(** The loop of [main] over the conflicts, one [process_conflict] after
    the other, none raising: [rs] are the conflicts for which it returned
    true, in scan order. *)
Inductive resolved_run (e : env) : list string -> world -> list string -> world -> Prop :=
| rr_nil (w : world) : resolved_run e [] w [] w
| rr_cons (c : string) (cs : list string) (w w1 w2 : world) (ok : bool) (rs : list string) :
    process_conflict e c w = (Ok ok, w1) ->
    resolved_run e cs w1 rs w2 ->
    resolved_run e (c :: cs) w (if ok then c :: rs else rs) w2.

(* ------------------------------------------------------------------ *)
(** ** A concrete scenario

    The working tree of the end-to-end scenario: an original note, its
    backup in the version store and a conflict copy. *)

Definition ex_original : string := "notes/a.md".
Definition ex_backup : string := ".stversions/notes/a~20240101-120000.md".
Definition ex_conflict : string := "notes/a.sync-conflict-20240102-130000-abcd123.md".

Definition ex_fs : fs_t :=
  fun q =>
    if String.eqb q ex_original then Some "A B"
    else if String.eqb q ex_backup then Some "A B"
    else if String.eqb q ex_conflict then Some "A C"
    else None.

Definition ex_world : world := mkWorld ex_fs [].

(** The same artifact and backup, with the original deleted. *)
Definition ex_fs_orphan : fs_t :=
  fun q =>
    if String.eqb q ex_backup then Some "A B"
    else if String.eqb q ex_conflict then Some "A C"
    else None.

(** [git merge-file --union] that succeeds, and one that cannot be started. *)
Definition merge_ok : string -> string -> string -> fs_t -> proc_outcome * option string :=
  fun _ _ _ _ => (Exited 0, Some "A B C").
Definition merge_missing : string -> string -> string -> fs_t -> proc_outcome * option string :=
  fun _ _ _ _ => (LaunchError, None).

Definition ex_env (procs : proc_query)
  (merge : string -> string -> string -> fs_t -> proc_outcome * option string) : env :=
  mkEnv procs (Some "default") (fun _ => SyncOk (Some "idle")) 100000
        [("./notes/a.md", Mtime 1000); ("./notes/a.sync-conflict-20240102-130000-abcd123.md", Mtime 2000)]
        [ex_original; ex_conflict; ex_backup]
        [ex_backup]
        merge.

(** The same tree with a Syncthing request that times out, and with a
    file modified 100 seconds ago. *)
Definition ex_env_busy : env :=
  mkEnv (QTable []) (Some "default") (fun _ => SyncFail "timeout") 100000
        [("./notes/a.md", Mtime 1000)]
        [ex_original; ex_conflict; ex_backup] [ex_backup] merge_ok.


(* ================================================================== *)
(** * Properties *)

(** ** Lengths of the pieces the conflict matcher consumes *)

Lemma str_length_app (s t : string) :
  String.length (s ++ t) = String.length s + String.length t.
Proof. induction s as [|c s IH]; simpl; auto. Qed.

Lemma strip_lit_length (lit s r : string) :
  strip_lit lit s = Some r -> String.length s = String.length lit + String.length r.
Proof.
  revert s; induction lit as [|c lit IH]; intros s H; simpl in H.
  - now inversion H.
  - destruct s as [|c' s]; [discriminate|].
    destruct (Ascii.eqb c c'); [|discriminate].
    simpl; f_equal; auto.
Qed.

Lemma take_class_length (p : ascii -> bool) (n : nat) (s r : string) :
  take_class p n s = Some r -> String.length s = n + String.length r.
Proof.
  revert s; induction n as [|n IH]; intros s H; simpl in H.
  - now inversion H.
  - destruct s as [|c s]; [discriminate|].
    destruct (p c); [|discriminate].
    simpl; f_equal; auto.
Qed.

Lemma if_some_empty (b : bool) (g : string) :
  (if b then Some EmptyString else None) = Some g -> g = EmptyString.
Proof. destruct b; congruence. Qed.

Lemma dot_star_dollar_length (r g : string) :
  dot_star_dollar r = Some g -> String.length g <= String.length r.
Proof.
  revert g; induction r as [|c r IH]; intros g H; cbn [dot_star_dollar] in H.
  - apply if_some_empty in H; subst; simpl; lia.
  - destruct (Ascii.eqb c newline).
    + apply if_some_empty in H; subst; simpl; lia.
    + destruct (dot_star_dollar r) as [g'|] eqn:E.
      * inversion H; subst; simpl; specialize (IH _ eq_refl); lia.
      * apply if_some_empty in H; subst; simpl; lia.
Qed.

Lemma opt_dot_group_length (r g : string) :
  opt_dot_group r = Some g -> String.length g <= String.length r.
Proof.
  unfold opt_dot_group; intros H.
  destruct r as [|c r]; [now apply dot_star_dollar_length|].
  destruct (Ascii.eqb c "."); [|now apply dot_star_dollar_length].
  destruct (dot_star_dollar r) as [g'|] eqn:E.
  - inversion H; subst. apply dot_star_dollar_length in E; simpl; lia.
  - now apply dot_star_dollar_length.
Qed.

Lemma marker_rest_length (s r : string) :
  marker_rest s = Some r -> String.length s = 37 + String.length r.
Proof.
  unfold marker_rest; intros H.
  destruct (strip_lit "sync-conflict-" s) as [s1|] eqn:E1; [|discriminate].
  destruct (take_class is_digit 8 s1) as [s2|] eqn:E2; [|discriminate].
  destruct (strip_lit "-" s2) as [s3|] eqn:E3; [|discriminate].
  destruct (take_class is_digit 6 s3) as [s4|] eqn:E4; [|discriminate].
  destruct (strip_lit "-" s4) as [s5|] eqn:E5; [|discriminate].
  apply strip_lit_length in E1, E3, E5.
  apply take_class_length in E2, E4, H.
  simpl in *; lia.
Qed.

Lemma after_sep_length (s g : string) :
  after_sep s = Some g -> 37 + String.length g <= String.length s.
Proof.
  unfold after_sep; intros H.
  destruct (marker_rest s) as [s1|] eqn:E; [|discriminate].
  apply marker_rest_length in E; apply opt_dot_group_length in H; lia.
Qed.

Lemma try_sep_length (s g : string) :
  try_sep s = Some g -> 38 + String.length g <= String.length s.
Proof.
  unfold try_sep; intros H.
  destruct (strip_lit "." s) as [s1|] eqn:E1.
  - destruct (after_sep s1) as [g1|] eqn:A1.
    + inversion H; subst. apply strip_lit_length in E1.
      apply after_sep_length in A1; simpl in *; lia.
    + destruct (strip_lit "%2F" s) as [s2|] eqn:E2; [|discriminate].
      apply strip_lit_length in E2; apply after_sep_length in H; simpl in *; lia.
  - destruct (strip_lit "%2F" s) as [s2|] eqn:E2; [|discriminate].
    apply strip_lit_length in E2; apply after_sep_length in H; simpl in *; lia.
Qed.

Lemma lazy_base_length (s b g : string) :
  lazy_base s = Some (b, g) ->
  String.length b + String.length g + 38 <= String.length s.
Proof.
  revert b g; induction s as [|c s IH]; intros b g H; cbn [lazy_base] in H.
  - destruct (try_sep "") as [g'|] eqn:T; [|discriminate].
    inversion H; subst. apply try_sep_length in T; simpl in *; lia.
  - destruct (try_sep (String c s)) as [g'|] eqn:T.
    + inversion H; subst. apply try_sep_length in T; simpl in *; lia.
    + destruct (Ascii.eqb c newline); [discriminate|].
      destruct (lazy_base s) as [[b' g'']|] eqn:L; [|discriminate].
      inversion H; subst. specialize (IH _ _ eq_refl); simpl; lia.
Qed.

(** The file a conflict path is merged into is never the conflict path. *)
Lemma original_of_neq (p base_name ext : string) :
  CONFLICT_REGEX_match p = Some (base_name, ext) -> original_of base_name ext <> p.
Proof.
  intros H Heq. apply lazy_base_length in H.
  assert (String.length (original_of base_name ext)
          <= String.length base_name + 1 + String.length ext) as L.
  { unfold original_of; destruct (String.eqb ext ""); [lia|].
    rewrite !str_length_app; simpl; lia. }
  rewrite Heq in L; lia.
Qed.

Lemma backup_pattern_match_nonempty (base_name ext c : string) :
  backup_pattern_match base_name ext c = true -> c <> "".
Proof. unfold backup_pattern_match; intros H ->; simpl in H; discriminate. Qed.

Lemma find_backup_file_some (base_name ext : string) (cs : list string) (b : string) :
  find_backup_file base_name ext cs = Some b ->
  In b cs /\ backup_pattern_match base_name ext b = true.
Proof.
  induction cs as [|c cs IH]; simpl; [discriminate|].
  destruct (backup_pattern_match base_name ext c) eqn:E.
  - intros H; inversion H; subst; auto.
  - intros H; destruct (IH H); auto.
Qed.

Lemma find_backup_file_nonempty (base_name ext : string) (cs : list string) (b : string) :
  find_backup_file base_name ext cs = Some b -> String.eqb b "" = false.
Proof.
  intros H; apply find_backup_file_some in H as [_ H].
  apply String.eqb_neq; now apply backup_pattern_match_nonempty in H.
Qed.

Lemma fs_update_other (f : fs_t) (p q : string) (v : option string) :
  q <> p -> fs_update f p v q = f q.
Proof. intros H; unfold fs_update; now rewrite (proj2 (String.eqb_neq q p) H). Qed.

Lemma fs_update_same (f : fs_t) (p : string) (v : option string) :
  fs_update f p v p = v.
Proof. unfold fs_update; now rewrite String.eqb_refl. Qed.

Ltac run_m :=
  cbv [os_path_isfile find_backup_file_io merge_files os_remove
       bind ret raise emit get_fs put_file log_run] in *;
  cbn [fs trace fst snd] in *.

Ltac pc_finish :=
  repeat split; intros;
  repeat match goal with
  | H1 : ?t = Some ?b1, H2 : ?t = Some ?b2 |- _ =>
      rewrite H1 in H2; injection H2 as H2; subst b2
  end;
  repeat match goal with
  | H : git_merge_file _ _ _ _ _ = _ |- _ => rewrite H in *
  end;
  cbn in *; try congruence.

(** C1 (as amended).  The artifact [p] leaves the disk only through a
    [true] result, which requires the original to exist, a backup to be
    found and [git merge-file] to exit 0.  A missing original, a missing
    backup or a nonzero exit give [false]; a merge tool that cannot be
    started raises; in every case but [true] the artifact is untouched. *)
Theorem process_conflict_deletes_only_on_success
  (e : env) (p : string) (w w' : world) (r : result bool)
  (Hrun : process_conflict e p w = (r, w')) :
  (r = Ok true ->
     exists base_name ext b,
       CONFLICT_REGEX_match p = Some (base_name, ext)
       /\ fs w (original_of base_name ext) <> None
       /\ find_backup_file base_name ext (backup_walk e) = Some b
       /\ fst (git_merge_file e (original_of base_name ext) b p (fs w)) = Exited 0
       /\ fs w' p = None)
  /\ (r <> Ok true -> fs w' p = fs w p)
  /\ (forall base_name ext,
        CONFLICT_REGEX_match p = Some (base_name, ext) ->
        (fs w (original_of base_name ext) = None -> r = Ok false)
        /\ (find_backup_file base_name ext (backup_walk e) = None -> r = Ok false)
        /\ (forall b code,
              find_backup_file base_name ext (backup_walk e) = Some b ->
              fst (git_merge_file e (original_of base_name ext) b p (fs w)) = Exited code ->
              code <> 0%Z -> r = Ok false)
        /\ (forall b,
              fs w (original_of base_name ext) <> None ->
              find_backup_file base_name ext (backup_walk e) = Some b ->
              fst (git_merge_file e (original_of base_name ext) b p (fs w)) = LaunchError ->
              r = Raise (FileNotFoundError "git"))).
Proof.
  unfold process_conflict in Hrun.
  destruct (CONFLICT_REGEX_match p) as [[bn x]|] eqn:Hm.
  2:{ run_m. inversion Hrun; subst.
      split; [discriminate|]. split; [reflexivity|]. discriminate. }
  pose proof (original_of_neq p bn x Hm) as Hneq.
  run_m.
  destruct (fs w (original_of bn x)) as [oc|] eqn:Hfo; cbn in Hrun.
  2:{ inversion Hrun; subst. split; [discriminate|]. split; [reflexivity|].
      intros bn' x' Hm'; inversion Hm'; subst; pc_finish. }
  destruct (find_backup_file bn x (backup_walk e)) as [b|] eqn:Hb.
  2:{ inversion Hrun; subst. split; [discriminate|]. split; [reflexivity|].
      intros bn' x' Hm'; inversion Hm'; subst; pc_finish. }
  rewrite (find_backup_file_nonempty _ _ _ _ Hb) in Hrun.
  cbn in Hrun.
  destruct (git_merge_file e (original_of bn x) b p (fs w)) as [po wr] eqn:Hg;
    destruct po as [code|]; cbn in Hrun.
  2:{ inversion Hrun; subst. split; [discriminate|]. split; [reflexivity|].
      intros bn' x' Hm'; inversion Hm'; subst; pc_finish. }
  assert (Hw : forall f, fs_update f (original_of bn x) wr p = f p) by
    (intros; apply fs_update_other; auto).
  destruct wr as [c|]; cbn in Hrun; destruct (Z.eqb code 0) eqn:Hc; cbn in Hrun;
    try rewrite (fs_update_other _ (original_of bn x) p _ (not_eq_sym Hneq)) in Hrun.
  all: try (apply Z.eqb_eq in Hc; subst code;
            destruct (fs w p) as [pc|] eqn:Hfp; cbn in Hrun).
  all: inversion Hrun; subst; cbn.
  all: split; [|split]; [intros Hr | intros Hr | intros bn' x' Hm'; inversion Hm'; subst; pc_finish].
  all: try discriminate; try (now contradiction Hr).
  all: try (rewrite ?fs_update_other; auto; fail).
  all: exists bn, x, b; rewrite Hg; cbn; repeat split; auto; try congruence.
  all: apply fs_update_same.
Qed.

Lemma process_conflict_deletes_only_on_success_witness :
  process_conflict (ex_env (QTable []) merge_ok) ex_conflict ex_world
    = (Ok true, snd (process_conflict (ex_env (QTable []) merge_ok) ex_conflict ex_world))
  /\ fs (snd (process_conflict (ex_env (QTable []) merge_ok) ex_conflict ex_world)) ex_conflict
     = None.
Proof.
  pose proof (process_conflict_deletes_only_on_success
                (ex_env (QTable []) merge_ok) ex_conflict ex_world
                (snd (process_conflict (ex_env (QTable []) merge_ok) ex_conflict ex_world))
                (Ok true) eq_refl) as [H _].
  split; [reflexivity|].
  destruct (H eq_refl) as (bn & x & b & _ & _ & _ & _ & Hd). exact Hd.
Defined.

(** C1, as stated, fails: when [git] cannot be started, process_conflict
    does not return false, the exception propagates (the original exists
    and a backup is found). *)
Lemma process_conflict_merge_launch_error :
  fs ex_world ex_original <> None
  /\ find_backup_file "notes/a" "md" [ex_backup] = Some ex_backup
  /\ fst (process_conflict (ex_env (QTable []) merge_missing) ex_conflict ex_world)
     = Raise (FileNotFoundError "git")
  /\ fst (process_conflict (ex_env (QTable []) merge_missing) ex_conflict ex_world)
     <> Ok false.
Proof. vm_compute. repeat split; discriminate. Qed.

(** C5.  When the original of a conflict path is not a file,
    process_conflict returns false after the single [isfile] probe, and
    the working tree (the artifact included) is left as it was. *)
Theorem process_conflict_missing_original
  (e : env) (p : string) (w : world) (base_name ext : string)
  (Hm : CONFLICT_REGEX_match p = Some (base_name, ext))
  (Ho : fs w (original_of base_name ext) = None) :
  process_conflict e p w
  = (Ok false, mkWorld (fs w) (trace w ++ [EvIsFile (original_of base_name ext)])).
Proof.
  unfold process_conflict; rewrite Hm; run_m.
  rewrite Ho; reflexivity.
Qed.

Lemma process_conflict_missing_original_witness :
  ex_fs_orphan ex_conflict = Some "A C"
  /\ ex_fs_orphan "notes/a.md" = None
  /\ process_conflict (ex_env (QTable []) merge_ok) ex_conflict (mkWorld ex_fs_orphan [])
     = (Ok false, mkWorld ex_fs_orphan [EvIsFile "notes/a.md"]).
Proof.
  split; [reflexivity|]; split; [reflexivity|].
  exact (process_conflict_missing_original (ex_env (QTable []) merge_ok) ex_conflict
           (mkWorld ex_fs_orphan []) "notes/a" "md" eq_refl eq_refl).
Defined.

(** C10.  A path the conflict regex does not match gives [false] with no
    action at all: neither the tree nor the trace changes. *)
Theorem process_conflict_nonmatching (e : env) (p : string) (w : world)
  (Hm : CONFLICT_REGEX_match p = None) :
  process_conflict e p w = (Ok false, w).
Proof. unfold process_conflict; rewrite Hm; reflexivity. Qed.

Lemma process_conflict_nonmatching_witness :
  process_conflict (ex_env (QTable []) merge_ok) ex_original ex_world = (Ok false, ex_world).
Proof.
  exact (process_conflict_nonmatching (ex_env (QTable []) merge_ok) ex_original ex_world
           eq_refl).
Defined.

(** C2 (code bug).  The backup pattern is only anchored at its start: a
    candidate whose extension merely begins with [ext] is accepted (the
    backup of [notes/a.md] for the extension [m]), and with an empty
    extension a literal dot is still required, so the version
    [Makefile~20240101-120000] of an extension-less file is rejected. *)
Theorem find_backup_file_unanchored :
  backup_pattern_match "notes/a" "m" ".stversions/notes/a~20240101-120000.md" = true
  /\ find_backup_file "notes/a" "m" [".stversions/notes/a~20240101-120000.md"]
     = Some ".stversions/notes/a~20240101-120000.md"
  /\ backup_pattern_match "Makefile" "" ".stversions/Makefile~20240101-120000" = false
  /\ find_backup_file "Makefile" "" [".stversions/Makefile~20240101-120000"] = None
  /\ CONFLICT_REGEX_match "Makefile.sync-conflict-20240101-120000-abcdefg"
     = Some ("Makefile", "").
Proof. vm_compute. repeat split. Qed.

Lemma is_obsidian_running_fst (e : env) (w : world) :
  fst (is_obsidian_running e w)
  = match pgrep_x "Obsidian" (proc_table e) with
    | Exited 0 => Ok true
    | Exited _ => Ok false
    | LaunchError => Raise (FileNotFoundError "pgrep")
    end.
Proof.
  unfold is_obsidian_running, bind, emit, ret, raise; cbn [fst].
  destruct (pgrep_x "Obsidian" (proc_table e)) as [[| |]|]; reflexivity.
Qed.

(** C4 (as amended).  is_obsidian_running answers true exactly when pgrep
    finds a process named Obsidian; a pgrep that runs and fails (exit 2 or
    3) reads as not running, like an absent process; a pgrep that cannot
    be started raises instead of answering. *)
Theorem is_obsidian_running_outcomes (e : env) (w : world) :
  (fst (is_obsidian_running e w) = Ok true
     <-> exists ns, proc_table e = QTable ns /\ In "Obsidian" ns)
  /\ (forall ns, proc_table e = QTable ns -> ~ In "Obsidian" ns ->
        fst (is_obsidian_running e w) = Ok false)
  /\ (proc_table e = QSyntaxError \/ proc_table e = QFatal ->
        fst (is_obsidian_running e w) = Ok false)
  /\ (proc_table e = QNoLaunch ->
        fst (is_obsidian_running e w) = Raise (FileNotFoundError "pgrep")).
Proof.
  rewrite is_obsidian_running_fst; unfold pgrep_x.
  assert (Hex : forall ns', existsb (String.eqb "Obsidian") ns' = true <-> In "Obsidian" ns').
  { intros ns'; rewrite existsb_exists; split.
    - intros (n & Hn & Heq); apply String.eqb_eq in Heq; now subst n.
    - intros Hn; exists "Obsidian"; split; auto; apply String.eqb_refl. }
  destruct (proc_table e) as [ns| | |].
  - destruct (existsb (String.eqb "Obsidian") ns) eqn:E.
    + apply Hex in E.
      split; [split; [intros _; exists ns; auto | reflexivity]|].
      split; [intros ns' Hns Hnin; inversion Hns; subst; contradiction|].
      split; [intros [H|H]; discriminate | intros H; discriminate].
    + split; [split; [discriminate|]|].
      { intros (ns' & Hns & Hin); inversion Hns; subst; apply Hex in Hin; congruence. }
      split; [intros; reflexivity|].
      split; [intros [H|H]; discriminate | intros H; discriminate].
  - split; [split; [discriminate | intros (? & H & _); discriminate]|].
    split; [intros ? H; discriminate|].
    split; [intros _; reflexivity | intros H; discriminate].
  - split; [split; [discriminate | intros (? & H & _); discriminate]|].
    split; [intros ? H; discriminate|].
    split; [intros _; reflexivity | intros H; discriminate].
  - split; [split; [discriminate | intros (? & H & _); discriminate]|].
    split; [intros ? H; discriminate|].
    split; [intros [H|H]; discriminate | intros _; reflexivity].
Qed.

(** C4, as stated, fails: without a pgrep to start, is_obsidian_running
    does not fail open to false, it raises. *)
Lemma is_obsidian_running_no_pgrep :
  fst (is_obsidian_running (ex_env QNoLaunch merge_ok) ex_world)
  = Raise (FileNotFoundError "pgrep")
  /\ fst (is_obsidian_running (ex_env QNoLaunch merge_ok) ex_world) <> Ok false.
Proof. vm_compute. split; [reflexivity | discriminate]. Qed.

(** C6.  find_backup_file returns the first candidate of the walk that the
    pattern accepts, whatever the timestamps, and None exactly when no
    candidate is accepted. *)
Theorem find_backup_file_first_match (base_name ext : string) (cands : list string) :
  (forall b, find_backup_file base_name ext cands = Some b
     <-> exists pre post, cands = (pre ++ b :: post)%list
         /\ backup_pattern_match base_name ext b = true
         /\ Forall (fun c => backup_pattern_match base_name ext c = false) pre)
  /\ (find_backup_file base_name ext cands = None
     <-> Forall (fun c => backup_pattern_match base_name ext c = false) cands).
Proof.
  induction cands as [|c cs [IH1 IH2]]; cbn.
  - split.
    + intros b; split; [discriminate|].
      intros (pre & post & H & _); destruct pre; discriminate.
    + split; auto.
  - destruct (backup_pattern_match base_name ext c) eqn:E.
    + split.
      * intros b; split.
        -- intros H; inversion H; subst. exists [], cs; auto.
        -- intros (pre & post & H & Hb & Hpre).
           destruct pre as [|c' pre]; cbn in H; inversion H; subst; auto.
           inversion Hpre; congruence.
      * split; [discriminate|]. intros H; inversion H; congruence.
    + split.
      * intros b; rewrite IH1; split.
        -- intros (pre & post & H & Hb & Hpre). exists (c :: pre), post.
           subst; auto.
        -- intros (pre & post & H & Hb & Hpre).
           destruct pre as [|c' pre]; cbn in H; inversion H; subst; [congruence|].
           inversion Hpre; subst. exists pre, post; auto.
      * rewrite IH2; split; [auto|]. intros H; now inversion H.
Qed.

(** The walk order decides: an older backup listed first wins over a newer one. *)
Example find_backup_file_walk_order :
  find_backup_file "notes/a" "md"
    [".stversions/notes/a~20230101-000000.md"; ".stversions/notes/a~20240101-120000.md"]
  = Some ".stversions/notes/a~20230101-000000.md".
Proof. reflexivity. Qed.

Lemma no_recent_settled_prefix (now seconds : Z) (pre rest : list (string * stat_outcome)) :
  forallb (fun f => settled now seconds (snd f)) pre = true ->
  no_recent_file_changes now seconds (pre ++ rest)%list = no_recent_file_changes now seconds rest.
Proof.
  induction pre as [|[path o] pre IH]; cbn; [reflexivity|].
  intros H; apply andb_prop in H as [Ho H].
  destruct o as [t| |errno]; cbn in Ho; [|auto|discriminate].
  apply Z.leb_le in Ho.
  destruct (Z.ltb_spec (now - seconds) t); [lia|auto].
Qed.

Lemma no_recent_decompose (now seconds : Z) (files : list (string * stat_outcome)) :
  forallb (fun f => settled now seconds (snd f)) files = true
  \/ exists pre path o post, files = (pre ++ (path, o) :: post)%list
        /\ forallb (fun f => settled now seconds (snd f)) pre = true
        /\ settled now seconds o = false.
Proof.
  induction files as [|[path o] rest IH]; cbn; [now left|].
  destruct (settled now seconds o) eqn:E; cbn.
  - destruct IH as [IH|(pre & p' & o' & post & -> & Hp & Ho)]; [now left|right].
    exists ((path, o) :: pre), p', o', post; cbn; rewrite E, Hp; auto.
  - right; exists [], path, o, rest; auto.
Qed.

(** C8 (as amended).  no_recent_file_changes reads the files in walk
    order and stops at the first one that is neither old nor vanished:
    it is false when that file is recent, it raises the OSError when that
    file's modification time cannot be read, and it is true when there is
    no such file.  So when no read fails other than by a vanished file,
    it is false exactly when some file whose mtime could be read is newer
    than [now - seconds]; a file that vanished before its mtime was read
    changes nothing. *)
Theorem no_recent_file_changes_spec (now seconds : Z) (files : list (string * stat_outcome)) :
  (no_recent_file_changes now seconds files = Ok false
     <-> exists pre path t post, files = (pre ++ (path, Mtime t) :: post)%list
           /\ (now - seconds < t)%Z
           /\ forallb (fun f => settled now seconds (snd f)) pre = true)
  /\ (forall ex, no_recent_file_changes now seconds files = Raise ex
     <-> exists pre path errno post, files = (pre ++ (path, StatError errno) :: post)%list
           /\ ex = OSError errno
           /\ forallb (fun f => settled now seconds (snd f)) pre = true)
  /\ (no_recent_file_changes now seconds files = Ok true
     <-> forallb (fun f => settled now seconds (snd f)) files = true)
  /\ ((forall path errno, ~ In (path, StatError errno) files) ->
      (no_recent_file_changes now seconds files = Ok false
       <-> exists path t, In (path, Mtime t) files /\ (now - seconds < t)%Z))
  /\ (forall pre post path,
        no_recent_file_changes now seconds (pre ++ (path, Vanished) :: post)%list
        = no_recent_file_changes now seconds (pre ++ post)%list).
Proof.
  assert (All : forallb (fun f => settled now seconds (snd f)) files = true ->
                no_recent_file_changes now seconds files = Ok true).
  { intros H; rewrite <- (app_nil_r files), (no_recent_settled_prefix _ _ _ _ H); reflexivity. }
  assert (Dec : forall pre path o post,
            files = (pre ++ (path, o) :: post)%list ->
            forallb (fun f => settled now seconds (snd f)) pre = true ->
            no_recent_file_changes now seconds files
            = no_recent_file_changes now seconds ((path, o) :: post)).
  { intros pre path o post -> Hp; now apply no_recent_settled_prefix. }
  assert (Ok_false : no_recent_file_changes now seconds files = Ok false
     <-> exists pre path t post, files = (pre ++ (path, Mtime t) :: post)%list
           /\ (now - seconds < t)%Z
           /\ forallb (fun f => settled now seconds (snd f)) pre = true).
  { split.
    - intros H. destruct (no_recent_decompose now seconds files)
        as [A|(pre & path & o & post & Hf & Hp & Ho)]; [rewrite (All A) in H; discriminate|].
      rewrite (Dec _ _ _ _ Hf Hp) in H.
      destruct o as [t| |errno]; cbn in Ho, H; try discriminate.
      exists pre, path, t, post; split; [exact Hf|]; split; [|exact Hp].
      apply Z.leb_gt in Ho; exact Ho.
    - intros (pre & path & t & post & Hf & Ht & Hp).
      rewrite (Dec _ _ _ _ Hf Hp); cbn.
      destruct (Z.ltb_spec (now - seconds) t); [reflexivity|lia]. }
  split; [exact Ok_false|]; split; [|split; [|split]].
  - intros ex; split.
    + intros H. destruct (no_recent_decompose now seconds files)
        as [A|(pre & path & o & post & Hf & Hp & Ho)]; [rewrite (All A) in H; discriminate|].
      rewrite (Dec _ _ _ _ Hf Hp) in H.
      destruct o as [t| |errno]; cbn in Ho, H; try discriminate.
      * apply Z.leb_gt in Ho; destruct (Z.ltb_spec (now - seconds) t); [discriminate|lia].
      * inversion H; subst. exists pre, path, errno, post; auto.
    + intros (pre & path & errno & post & Hf & -> & Hp).
      rewrite (Dec _ _ _ _ Hf Hp); reflexivity.
  - split; [|exact All].
    intros H. destruct (no_recent_decompose now seconds files)
      as [A|(pre & path & o & post & Hf & Hp & Ho)]; [exact A|].
    rewrite (Dec _ _ _ _ Hf Hp) in H.
    destruct o as [t| |errno]; cbn in Ho, H; try discriminate.
    apply Z.leb_gt in Ho. destruct (Z.ltb_spec (now - seconds) t); [discriminate|lia].
  - intros NoErr; rewrite Ok_false; split.
    + intros (pre & path & t & post & -> & Ht & _).
      exists path, t; split; [apply in_or_app; right; left; reflexivity | exact Ht].
    + intros (path & t & Hin & Ht).
      destruct (no_recent_decompose now seconds files)
        as [A|(pre & path' & o & post & Hf & Hp & Ho)].
      * rewrite forallb_forall in A; specialize (A _ Hin); cbn in A.
        apply Z.leb_le in A; lia.
      * destruct o as [t'| |errno]; cbn in Ho; try discriminate.
        -- exists pre, path', t', post; split; [exact Hf|]; split; [|exact Hp].
           apply Z.leb_gt in Ho; exact Ho.
        -- exfalso; apply (NoErr path' errno); rewrite Hf.
           apply in_or_app; right; left; reflexivity.
  - intros pre post path.
    induction pre as [|[p' [t| |errno]] pre IH]; cbn; auto.
    now rewrite IH.
Qed.

(** A symlink loop listed before a recently modified file: getmtime
    raises OSError (ELOOP) on the loop, which [except FileNotFoundError]
    does not catch, so the function raises and never returns false,
    although a file newer than [now - 600] is present. *)
Lemma no_recent_file_changes_symlink_loop :
  no_recent_file_changes 100000 MIN_IDLE_TIME
    [("./loop", StatError "ELOOP"); ("./notes/b.md", Mtime 99900)]
  = Raise (OSError "ELOOP")
  /\ In ("./notes/b.md", Mtime 99900) [("./loop", StatError "ELOOP"); ("./notes/b.md", Mtime 99900)]
  /\ (100000 - MIN_IDLE_TIME < 99900)%Z.
Proof.
  split; [reflexivity|]; split; [right; left; reflexivity|].
  unfold MIN_IDLE_TIME; lia.
Qed.

(** C9.  When pgrep finds Obsidian, main logs the skip and stops: the only
    actions are the process query and that log line, the tree is
    unchanged. *)
Theorem main_editor_first (e : env) (w : world) (ns : list string)
  (Ht : proc_table e = QTable ns) (Hin : In "Obsidian" ns) :
  main e w = (Ok tt, mkWorld (fs w) (trace w ++ [EvPgrep; EvLog "Skipped: Obsidian is running"])).
Proof.
  assert (existsb (String.eqb "Obsidian") ns = true) as E
    by (apply existsb_exists; exists "Obsidian"; split; auto; apply String.eqb_refl).
  unfold main, is_obsidian_running, pgrep_x, log_run, bind, emit, ret.
  rewrite Ht, E; cbn. now rewrite <- app_assoc.
Qed.

Lemma main_editor_first_witness :
  main (ex_env (QTable ["Obsidian"]) merge_ok) ex_world
  = (Ok tt, mkWorld ex_fs [EvPgrep; EvLog "Skipped: Obsidian is running"]).
Proof.
  exact (main_editor_first (ex_env (QTable ["Obsidian"]) merge_ok) ex_world ["Obsidian"]
           eq_refl (or_introl eq_refl)).
Defined.

(** ** Traces: what a run appends *)

Lemma logs_of_app (a b : list event) : logs_of (a ++ b) = (logs_of a ++ logs_of b)%list.
Proof. induction a as [|ev a IH]; cbn; auto. destruct ev; cbn; now rewrite IH. Qed.

Lemma aq_ret {A} (a : A) : appends_quiet (ret a).
Proof. intros w; exists []; cbn; now rewrite app_nil_r. Qed.

Lemma aq_raise {A} (ex : exn) : appends_quiet (@raise A ex).
Proof. intros w; exists []; cbn; now rewrite app_nil_r. Qed.

Lemma aq_get_fs : appends_quiet get_fs.
Proof. intros w; exists []; cbn; now rewrite app_nil_r. Qed.

Lemma aq_put_file (p : string) (v : option string) : appends_quiet (put_file p v).
Proof. intros w; exists []; cbn; now rewrite app_nil_r. Qed.

Lemma aq_emit (ev : event) : (forall m, ev <> EvLog m) -> appends_quiet (emit ev).
Proof. intros H w; exists [ev]; split; [reflexivity|]. destruct ev; cbn; auto.
       exfalso; eapply H; reflexivity. Qed.

Lemma aq_bind {A B} (m : M A) (k : A -> M B) :
  appends_quiet m -> (forall a, appends_quiet (k a)) -> appends_quiet (bind m k).
Proof.
  intros Hm Hk w; unfold bind.
  destruct (Hm w) as (t1 & H1 & L1).
  destruct (m w) as [[a|ex] w1]; cbn in H1.
  - destruct (Hk a w1) as (t2 & H2 & L2).
    exists (t1 ++ t2)%list; split.
    + rewrite H2, H1; now rewrite app_assoc.
    + now rewrite logs_of_app, L1, L2.
  - exists t1; auto.
Qed.

Ltac aq_solve :=
  repeat match goal with
  | |- appends_quiet (bind _ _) => apply aq_bind; [|intros]
  | |- appends_quiet (ret _) => apply aq_ret
  | |- appends_quiet (raise _) => apply aq_raise
  | |- appends_quiet get_fs => apply aq_get_fs
  | |- appends_quiet (put_file _ _) => apply aq_put_file
  | |- appends_quiet (emit _) => apply aq_emit; intros ? ?; discriminate
  | |- appends_quiet (match ?x with _ => _ end) => destruct x
  end.

Lemma aq_process_conflict (e : env) (p : string) : appends_quiet (process_conflict e p).
Proof.
  unfold process_conflict, os_path_isfile, find_backup_file_io, merge_files, os_remove.
  aq_solve.
Qed.

Lemma aq_logs (A : Type) (m : M A) (w : world) :
  appends_quiet m -> logs_of (trace (snd (m w))) = logs_of (trace w).
Proof.
  intros H; destruct (H w) as (t & Ht & Lt).
  rewrite Ht, logs_of_app, Lt; apply app_nil_r.
Qed.

Lemma bind_isfile_first {B : Type} (o : string) (k : bool -> M B) (w : world) :
  (forall a, appends_quiet (k a)) ->
  exists t, trace (snd (bind (os_path_isfile o) k w)) = (trace w ++ EvIsFile o :: t)%list.
Proof.
  intros Hk.
  unfold bind at 1; unfold os_path_isfile, bind, emit, get_fs, ret; cbn [fst snd fs trace].
  destruct (Hk (match fs w o with Some _ => true | None => false end)
              (mkWorld (fs w) (trace w ++ [EvIsFile o]))) as (t & Ht & _).
  exists t; rewrite Ht; cbn; now rewrite <- app_assoc.
Qed.

(** The first action of process_conflict on a matched path is the
    [isfile] probe of the original built from the two groups. *)
Lemma process_conflict_probes_original (e : env) (p : string) (w : world)
  (base_name ext : string) :
  CONFLICT_REGEX_match p = Some (base_name, ext) ->
  exists t, trace (snd (process_conflict e p w))
            = (trace w ++ EvIsFile (original_of base_name ext) :: t)%list.
Proof.
  intros Hm; unfold process_conflict; rewrite Hm; cbv zeta.
  apply bind_isfile_first; intros ex.
  unfold find_backup_file_io, merge_files, os_remove; aq_solve.
Qed.

(** C3.  find_conflict_files keeps exactly the paths CONFLICT_REGEX
    matches, and process_conflict acts on the groups of that same match:
    its first action probes [base_name.ext] (or [base_name]).  For the
    example path the groups are [notes/todo] and [md]. *)
Theorem conflict_groups_agree :
  (forall rel_paths p,
     In p (find_conflict_files rel_paths)
     <-> In p rel_paths /\ exists base_name ext, CONFLICT_REGEX_match p = Some (base_name, ext))
  /\ (forall e w p base_name ext,
        CONFLICT_REGEX_match p = Some (base_name, ext) ->
        exists t, trace (snd (process_conflict e p w))
                  = (trace w ++ EvIsFile (original_of base_name ext) :: t)%list)
  /\ CONFLICT_REGEX_match "notes/todo.sync-conflict-20240101-120000-abc1234.md"
     = Some ("notes/todo", "md")
  /\ (forall e w, exists t,
        trace (snd (process_conflict e "notes/todo.sync-conflict-20240101-120000-abc1234.md" w))
        = (trace w ++ EvIsFile "notes/todo.md" :: t)%list).
Proof.
  split; [|split; [|split]].
  - intros rel_paths p; unfold find_conflict_files; rewrite filter_In.
    destruct (CONFLICT_REGEX_match p) as [[b x]|]; split.
    + intros [H _]; eauto.
    + intros [H _]; auto.
    + intros [_ H]; discriminate.
    + intros [_ (b & x & H)]; discriminate.
  - intros e w p b x Hm; now apply process_conflict_probes_original.
  - reflexivity.
  - intros e w; now apply (process_conflict_probes_original e _ w "notes/todo" "md").
Qed.

(** ** The summary of a run *)

Lemma resolve_all_run (e : env) (cs : list string) (w : world) :
  match resolve_all e cs w with
  | (Ok rs, w') => resolved_run e cs w rs w' /\ logs_of (trace w') = logs_of (trace w)
  | (Raise _, w') => logs_of (trace w') = logs_of (trace w)
  end.
Proof.
  revert w; induction cs as [|c cs IH]; intros w.
  - cbn; split; [constructor | reflexivity].
  - cbn [resolve_all]. unfold bind at 1.
    pose proof (aq_logs _ _ w (aq_process_conflict e c)) as L1.
    destruct (process_conflict e c w) as [[ok|ex] w1] eqn:Hp; cbn in L1.
    + unfold bind at 1. specialize (IH w1).
      destruct (resolve_all e cs w1) as [[rs|ex] w2]; cbn.
      * destruct IH as [R L2]; split; [econstructor; eauto | congruence].
      * congruence.
    + exact L1.
Qed.

Lemma main_gate_passed (e : env) (w : world)
  (Hpg : fst (is_obsidian_running e w) = Ok false)
  (Hsy : sync_status e (status_url (folder_id e)) = SyncOk (Some "idle"))
  (Hid : no_recent_file_changes (now e) MIN_IDLE_TIME (idle_walk e) = Ok true) :
  main e w
  = bind (resolve_all e (find_conflict_files (tree_walk e)))
         (fun rs => log_run (summary_of rs))
         (mkWorld (fs w) (trace w ++ [EvPgrep; EvSyncGet (status_url (folder_id e));
                                      EvIdleWalk CHECK_DIR; EvSleep; EvTreeWalk "."])).
Proof.
  rewrite is_obsidian_running_fst in Hpg.
  unfold main, is_obsidian_running, is_syncthing_idle.
  destruct (pgrep_x "Obsidian" (proc_table e)) as [[|c|c]|]; try discriminate;
  cbv zeta; rewrite Hsy, Hid; cbv [bind emit ret raise of_result];
  cbn -[resolve_all find_conflict_files log_run summary_of];
  rewrite <- !app_assoc; reflexivity.
Qed.

(** C7 (as amended).  Once the three checks pass, a run that completes
    logs exactly one more line: "No conflicts found" when no conflict was
    resolved (also when some were found), otherwise "Resolved N
    conflict(s): ..." with the resolved paths in scan order.  A run in
    which a per-artifact step raises (the merge tool cannot be started, an
    artifact to delete is already gone) logs no summary line. *)
Theorem main_summary (e : env) (w : world)
  (Hpg : fst (is_obsidian_running e w) = Ok false)
  (Hsy : sync_status e (status_url (folder_id e)) = SyncOk (Some "idle"))
  (Hid : no_recent_file_changes (now e) MIN_IDLE_TIME (idle_walk e) = Ok true) :
  match main e w with
  | (Ok _, w') =>
      exists rs w2 msg,
        resolved_run e (find_conflict_files (tree_walk e))
          (mkWorld (fs w) (trace w ++ [EvPgrep; EvSyncGet (status_url (folder_id e));
                                       EvIdleWalk CHECK_DIR; EvSleep; EvTreeWalk "."]))
          rs w2
        /\ logs_of (trace w') = (logs_of (trace w) ++ [msg])%list
        /\ ((rs = [] /\ msg = "No conflicts found")
            \/ (rs <> [] /\ msg = "Resolved " ++ str_of_nat (length rs) ++ " conflict(s): "
                                   ++ join ", " rs))
  | (Raise _, w') => logs_of (trace w') = logs_of (trace w)
  end.
Proof.
  rewrite (main_gate_passed e w Hpg Hsy Hid).
  set (w0 := mkWorld (fs w) (trace w ++ [EvPgrep; EvSyncGet (status_url (folder_id e));
                                         EvIdleWalk CHECK_DIR; EvSleep; EvTreeWalk "."])).
  pose proof (resolve_all_run e (find_conflict_files (tree_walk e)) w0) as R.
  assert (Hw0 : logs_of (trace w0) = logs_of (trace w)).
  { subst w0; cbn [trace]; rewrite logs_of_app; cbn; apply app_nil_r. }
  unfold bind.
  destruct (resolve_all e (find_conflict_files (tree_walk e)) w0) as [[rs|ex] w2].
  - destruct R as [R L].
    unfold log_run, emit; cbn [fst snd fs trace].
    exists rs, w2, (summary_of rs); split; [exact R|]; split.
    + rewrite logs_of_app, L, Hw0; reflexivity.
    + destruct rs as [|r rs']; [left | right]; split; try reflexivity; discriminate.
  - rewrite R; exact Hw0.
Qed.

Lemma main_summary_witness :
  fst (is_obsidian_running (ex_env (QTable []) merge_ok) ex_world) = Ok false
  /\ match main (ex_env (QTable []) merge_ok) ex_world with
     | (Ok _, w') =>
         exists rs w2 msg,
           resolved_run (ex_env (QTable []) merge_ok)
             (find_conflict_files (tree_walk (ex_env (QTable []) merge_ok)))
             (mkWorld ex_fs ([] ++ [EvPgrep; EvSyncGet (status_url (Some "default"));
                                    EvIdleWalk CHECK_DIR; EvSleep; EvTreeWalk "."]))
             rs w2
           /\ logs_of (trace w') = ([] ++ [msg])%list
           /\ ((rs = [] /\ msg = "No conflicts found")
               \/ (rs <> [] /\ msg = "Resolved " ++ str_of_nat (length rs) ++ " conflict(s): "
                                      ++ join ", " rs))
     | (Raise _, w') => logs_of (trace w') = []
     end.
Proof.
  split; [reflexivity|].
  exact (main_summary (ex_env (QTable []) merge_ok) ex_world eq_refl eq_refl eq_refl).
Defined.

(** The end-to-end scenario: one merge, the artifact deleted, one line. *)
Example main_scenario_resolves :
  logs_of (trace (snd (main (ex_env (QTable []) merge_ok) ex_world)))
  = ["Resolved 1 conflict(s): notes/a.sync-conflict-20240102-130000-abcd123.md"]
  /\ fs (snd (main (ex_env (QTable []) merge_ok) ex_world)) ex_conflict = None.
Proof. vm_compute. split; reflexivity. Qed.

(** C7, as stated, fails: the run below passes the three checks, finds
    one artifact with its original and backup, but [git] cannot be
    started; main raises and writes no summary line. *)
Lemma main_no_summary_when_merge_cannot_start :
  fst (is_obsidian_running (ex_env (QTable []) merge_missing) ex_world) = Ok false
  /\ sync_status (ex_env (QTable []) merge_missing) (status_url (Some "default"))
     = SyncOk (Some "idle")
  /\ no_recent_file_changes 100000 MIN_IDLE_TIME
       (idle_walk (ex_env (QTable []) merge_missing)) = Ok true
  /\ find_conflict_files (tree_walk (ex_env (QTable []) merge_missing)) = [ex_conflict]
  /\ fst (main (ex_env (QTable []) merge_missing) ex_world) = Raise (FileNotFoundError "git")
  /\ logs_of (trace (snd (main (ex_env (QTable []) merge_missing) ex_world))) = [].
Proof. vm_compute. repeat split. Qed.

(* ================================================================== *)
(** * Further properties of the code *)

(** X2.  When Obsidian is not running but Syncthing is not idle, main logs the
    skip (after the error line of a failed request) and does nothing else:
    no idle scan, no conflict scan, no file change. *)
Theorem main_skips_when_sync_busy (e : env) (w : world)
  (Hpg : fst (is_obsidian_running e w) = Ok false)
  (Hsy : sync_status e (status_url (folder_id e)) <> SyncOk (Some "idle")) :
  main e w
  = (Ok tt, mkWorld (fs w)
              (trace w ++ [EvPgrep; EvSyncGet (status_url (folder_id e))]
               ++ match sync_status e (status_url (folder_id e)) with
                  | SyncFail err => [EvLog ("Error checking Syncthing status: " ++ err)%string]
                  | SyncOk _ => []
                  end
               ++ [EvLog "Skipped: Syncthing is active"])%list).
Proof.
  rewrite is_obsidian_running_fst in Hpg.
  unfold main, is_obsidian_running, is_syncthing_idle.
  destruct (pgrep_x "Obsidian" (proc_table e)) as [[|c|c]|]; try discriminate;
  cbv zeta;
  (destruct (sync_status e (status_url (folder_id e))) as [[s|]|err];
   [ destruct (String.eqb s "idle") eqn:Es;
     [ apply String.eqb_eq in Es; subst; contradiction | ] | | ]);
  cbv [bind emit ret raise log_run]; cbn -[status_url];
  rewrite ?Es; cbn; rewrite <- !app_assoc; reflexivity.
Qed.

Lemma main_skips_when_sync_busy_witness :
  main ex_env_busy ex_world
  = (Ok tt, mkWorld ex_fs [EvPgrep; EvSyncGet (status_url (Some "default"));
                           EvLog "Error checking Syncthing status: timeout";
                           EvLog "Skipped: Syncthing is active"]).
Proof.
  exact (main_skips_when_sync_busy ex_env_busy ex_world eq_refl
           ltac:(vm_compute; discriminate)).
Defined.



(** ** Effects on the working tree *)

Lemma process_conflict_fs (e : env) (p : string) (w w' : world) (r : result bool) :
  process_conflict e p w = (r, w') ->
  (r = Ok true -> fs w p <> None /\ fs w' p = None)
  /\ (forall q, fs w' q <> fs w q ->
        (q = p /\ fs w' q = None)
        \/ (exists base_name ext, CONFLICT_REGEX_match p = Some (base_name, ext)
              /\ q = original_of base_name ext /\ fs w q <> None)).
Proof.
  intros Hrun; unfold process_conflict in Hrun.
  destruct (CONFLICT_REGEX_match p) as [[bn x]|] eqn:Hm.
  2:{ run_m. inversion Hrun; subst. split; [discriminate|]. intros q H; now contradiction H. }
  pose proof (original_of_neq p bn x Hm) as Hneq.
  run_m.
  destruct (fs w (original_of bn x)) as [oc|] eqn:Hfo; cbn in Hrun.
  2:{ inversion Hrun; subst. split; [discriminate|]. intros q H; now contradiction H. }
  destruct (find_backup_file bn x (backup_walk e)) as [b|] eqn:Hb.
  2:{ inversion Hrun; subst. split; [discriminate|]. intros q H; now contradiction H. }
  rewrite (find_backup_file_nonempty _ _ _ _ Hb) in Hrun.
  cbn in Hrun.
  destruct (git_merge_file e (original_of bn x) b p (fs w)) as [po wr] eqn:Hg;
    destruct po as [code|]; cbn in Hrun.
  2:{ inversion Hrun; subst. split; [discriminate|]. intros q H; now contradiction H. }
  destruct wr as [c|]; cbn in Hrun; destruct (Z.eqb code 0) eqn:Hc; cbn in Hrun;
    try rewrite (fs_update_other _ (original_of bn x) p _ (not_eq_sym Hneq)) in Hrun.
  all: try (destruct (fs w p) as [pc|] eqn:Hfp; cbn in Hrun).
  all: inversion Hrun; subst; cbn [fs].
  all: split; [intros Hr; try discriminate; try (split; [congruence | apply fs_update_same])|].
  all: intros q Hq; try (exfalso; now apply Hq).
  all: unfold fs_update in Hq |- *.
  all: destruct (String.eqb_spec q p) as [Hqp|Hqp];
       [subst q; try rewrite (proj2 (String.eqb_neq p (original_of bn x)) (not_eq_sym Hneq)) in *;
        left; split; [reflexivity|]; try reflexivity; exfalso; now apply Hq|].
  all: destruct (String.eqb_spec q (original_of bn x)) as [Hqo|Hqo];
       [right; exists bn, x; subst q; repeat split; congruence | exfalso; now apply Hq].
Qed.

Lemma never_creates_bind {A B} (m : M A) (k : A -> M B) :
  never_creates m -> (forall a, never_creates (k a)) -> never_creates (bind m k).
Proof.
  intros Hm Hk w q H; unfold bind.
  pose proof (Hm w q H) as H1.
  destruct (m w) as [[a|ex] w1]; cbn in *; [apply Hk|]; exact H1.
Qed.

Lemma fs_same_never_creates {A} (m : M A) :
  (forall w, fs (snd (m w)) = fs w) -> never_creates m.
Proof. intros H w q Hq; now rewrite H. Qed.

Lemma process_conflict_never_creates (e : env) (p : string) :
  never_creates (process_conflict e p).
Proof.
  intros w q Hq.
  destruct (process_conflict e p w) as [r w'] eqn:Hrun; cbn.
  destruct (process_conflict_fs e p w w' r Hrun) as [_ H].
  destruct (fs w' q) as [v|] eqn:Hv; [|reflexivity].
  destruct (H q) as [[_ H1] | (bn & x & _ & _ & H1)]; congruence.
Qed.

Lemma resolve_all_never_creates (e : env) (cs : list string) :
  never_creates (resolve_all e cs).
Proof.
  induction cs as [|c cs IH]; cbn [resolve_all].
  - now apply fs_same_never_creates.
  - apply never_creates_bind; [apply process_conflict_never_creates|intros ok].
    apply never_creates_bind; [exact IH|intros rest].
    now apply fs_same_never_creates.
Qed.

Lemma option_string_dec (a b : option string) : {a = b} + {a <> b}.
Proof. decide equality; apply String.string_dec. Qed.

(** X7.  When the conflict loop of main completes, the resolved paths are
    distinct, each was scanned, existed when the loop began and is absent
    when it ends. *)
Theorem resolve_all_resolved (e : env) (cs : list string) (w w' : world) (rs : list string) :
  resolve_all e cs w = (Ok rs, w') ->
  NoDup rs /\ forall c, In c rs -> In c cs /\ fs w c <> None /\ fs w' c = None.
Proof.
  revert w rs; induction cs as [|c cs IH]; intros w rs Hrun.
  - cbn in Hrun; inversion Hrun; subst; split; [constructor | intros c []].
  - cbn [resolve_all] in Hrun; unfold bind at 1 in Hrun.
    destruct (process_conflict e c w) as [[ok|ex] w1] eqn:Hp; [|discriminate].
    unfold bind at 1 in Hrun.
    destruct (resolve_all e cs w1) as [[rest|ex] w2] eqn:Hr; [|discriminate].
    cbv [ret] in Hrun; inversion Hrun; subst; clear Hrun.
    destruct (IH w1 rest Hr) as [ND Hrest].
    destruct (process_conflict_fs e c w w1 (Ok ok) Hp) as [Hok _].
    assert (Hback : forall c', In c' rest -> fs w c' <> None).
    { intros c' Hc' H0. destruct (Hrest c' Hc') as (_ & H1 & _).
      apply H1. pose proof (process_conflict_never_creates e c w c' H0) as H2.
      rewrite Hp in H2; exact H2. }
    destruct ok.
    + destruct (Hok eq_refl) as [Hw Hw1]. split.
      * constructor; [|exact ND].
        intros Hin; destruct (Hrest c Hin) as (_ & H1 & _); contradiction.
      * intros c' [<-|Hc'].
        -- split; [left; reflexivity|]; split; [exact Hw|].
           pose proof (resolve_all_never_creates e cs w1 c Hw1) as H2.
           rewrite Hr in H2; exact H2.
        -- destruct (Hrest c' Hc') as (H1 & _ & H3).
           split; [right; exact H1|]; split; [apply Hback; exact Hc' | exact H3].
    + split; [exact ND|].
      intros c' Hc'; destruct (Hrest c' Hc') as (H1 & _ & H3).
      split; [right; exact H1|]; split; [apply Hback; exact Hc' | exact H3].
Qed.

(** ** The two patterns, piece by piece *)

Lemma str_app_assoc (a b c : string) : (a ++ b) ++ c = a ++ (b ++ c).
Proof. induction a as [|x a IH]; cbn; [reflexivity | now rewrite IH]. Qed.

Lemma str_app_nil_r (a : string) : a ++ "" = a.
Proof. induction a as [|x a IH]; cbn; [reflexivity | now rewrite IH]. Qed.

Lemma str_cons_app (c : ascii) (s t : string) : String c s ++ t = String c (s ++ t).
Proof. reflexivity. Qed.

Lemma strip_lit_some (lit s r : string) : strip_lit lit s = Some r -> s = lit ++ r.
Proof.
  revert s; induction lit as [|c lit IH]; intros s H; cbn in H.
  - now inversion H.
  - destruct s as [|c' s]; [discriminate|].
    destruct (Ascii.eqb_spec c c') as [<-|]; [|discriminate].
    cbn; f_equal; now apply IH.
Qed.

Lemma strip_lit_app (lit r : string) : strip_lit lit (lit ++ r) = Some r.
Proof. induction lit as [|c lit IH]; cbn; [reflexivity | now rewrite Ascii.eqb_refl]. Qed.

Lemma take_class_some (p : ascii -> bool) (n : nat) (s r : string) :
  take_class p n s = Some r ->
  exists t, s = t ++ r /\ String.length t = n /\ all_class p t = true.
Proof.
  revert s; induction n as [|n IH]; intros s H; cbn in H.
  - inversion H; subst; now exists "".
  - destruct s as [|c s]; [discriminate|].
    destruct (p c) eqn:Pc; [|discriminate].
    destruct (IH s H) as (t & -> & L & A).
    exists (String c t); cbn; now rewrite L, Pc, A.
Qed.

Lemma take_class_app (p : ascii -> bool) (t r : string) :
  all_class p t = true -> take_class p (String.length t) (t ++ r) = Some r.
Proof.
  induction t as [|c t IH]; cbn; [reflexivity|].
  intros H; apply andb_prop in H as [-> H]; now apply IH.
Qed.

Lemma dot_star_dollar_some (r g : string) :
  dot_star_dollar r = Some g ->
  (r = g \/ r = g ++ nl_str) /\ no_newline g = true.
Proof.
  revert g; induction r as [|c r IH]; intros g H; cbn -[newline] in H.
  - inversion H; subst; split; [left|]; reflexivity.
  - destruct (Ascii.eqb_spec c newline) as [->|Hc].
    + destruct r; cbn in H; [|discriminate].
      try rewrite Ascii.eqb_refl in H; inversion H; subst.
      split; [right|]; reflexivity.
    + destruct (dot_star_dollar r) as [g'|] eqn:E.
      * inversion H; subst. destruct (IH g' eq_refl) as [Hr Hn].
        unfold no_newline in *; cbn [all_class]; rewrite (proj2 (Ascii.eqb_neq c newline) Hc); cbn.
        split; [destruct Hr as [->| ->]; [left|right]; reflexivity | exact Hn].
      * destruct r; cbn in H; [|discriminate].
        try discriminate; rewrite (proj2 (Ascii.eqb_neq c newline) Hc) in H; discriminate.
Qed.

Lemma dot_star_dollar_app (g nl : string) :
  no_newline g = true -> nl = "" \/ nl = nl_str -> dot_star_dollar (g ++ nl) = Some g.
Proof.
  intros Hg Hnl; induction g as [|c g IH].
  - destruct Hnl as [-> | ->]; reflexivity.
  - unfold no_newline in Hg; cbn [all_class] in Hg; apply andb_prop in Hg as [Hc Hg].
    apply negb_true_iff in Hc; cbn -[newline]; rewrite Hc, (IH Hg); reflexivity.
Qed.

Lemma opt_dot_group_some (r g : string) :
  opt_dot_group r = Some g ->
  exists dot nl, r = dot ++ g ++ nl /\ (dot = "" \/ dot = ".")
                 /\ (nl = "" \/ nl = nl_str) /\ no_newline g = true.
Proof.
  intros H.
  assert (Plain : dot_star_dollar r = Some g -> exists dot nl, r = dot ++ g ++ nl
             /\ (dot = "" \/ dot = ".") /\ (nl = "" \/ nl = nl_str) /\ no_newline g = true).
  { intros D; destruct (dot_star_dollar_some r g D) as [[E|E] N].
    - exists "", ""; cbn; rewrite str_app_nil_r; auto.
    - exists "", nl_str; cbn; auto. }
  unfold opt_dot_group in H; destruct r as [|c r']; [now apply Plain|].
  destruct (Ascii.eqb_spec c "."%char) as [->|_]; [|now apply Plain].
  destruct (dot_star_dollar r') as [g'|] eqn:D; [|now apply Plain].
  inversion H; subst g'.
  destruct (dot_star_dollar_some r' g D) as [[E|E] N].
  - exists ".", ""; cbn; rewrite str_app_nil_r, E; auto.
  - exists ".", nl_str; cbn; rewrite E; auto.
Qed.

Lemma marker_rest_some (s r : string) :
  marker_rest s = Some r ->
  exists d8 d6 w7, s = marker_of d8 d6 w7 ++ r /\ marker_pieces_ok d8 d6 w7.
Proof.
  unfold marker_rest; intros H.
  destruct (strip_lit "sync-conflict-" s) as [s1|] eqn:E1; [|discriminate].
  destruct (take_class is_digit 8 s1) as [s2|] eqn:E2; [|discriminate].
  destruct (strip_lit "-" s2) as [s3|] eqn:E3; [|discriminate].
  destruct (take_class is_digit 6 s3) as [s4|] eqn:E4; [|discriminate].
  destruct (strip_lit "-" s4) as [s5|] eqn:E5; [|discriminate].
  apply strip_lit_some in E1, E3, E5.
  apply take_class_some in E2 as (d8 & -> & L8 & A8).
  apply take_class_some in E4 as (d6 & -> & L6 & A6).
  apply take_class_some in H as (w7 & -> & L7 & A7).
  exists d8, d6, w7; split; [|repeat split; assumption].
  subst; unfold marker_of; rewrite !str_app_assoc; reflexivity.
Qed.

Lemma marker_rest_app (d8 d6 w7 r : string) :
  marker_pieces_ok d8 d6 w7 -> marker_rest (marker_of d8 d6 w7 ++ r) = Some r.
Proof.
  intros (L8 & A8 & L6 & A6 & L7 & A7); unfold marker_rest, marker_of.
  rewrite !str_app_assoc, strip_lit_app.
  assert (T : forall p t n r, String.length t = n -> all_class p t = true ->
                take_class p n (t ++ r) = Some r)
    by (intros p t n r' <-; apply take_class_app).
  rewrite (T _ d8 8%nat _ L8 A8), strip_lit_app, (T _ d6 6%nat _ L6 A6), strip_lit_app.
  exact (T _ w7 7%nat _ L7 A7).
Qed.

Lemma try_sep_some (r g : string) :
  try_sep r = Some g ->
  exists sep d8 d6 w7 dot nl,
    r = sep ++ marker_of d8 d6 w7 ++ dot ++ g ++ nl
    /\ (sep = "." \/ sep = "%2F") /\ marker_pieces_ok d8 d6 w7
    /\ (dot = "" \/ dot = ".") /\ (nl = "" \/ nl = nl_str) /\ no_newline g = true.
Proof.
  assert (Aft : forall s, after_sep s = Some g ->
            exists d8 d6 w7 dot nl, s = marker_of d8 d6 w7 ++ dot ++ g ++ nl
              /\ marker_pieces_ok d8 d6 w7 /\ (dot = "" \/ dot = ".")
              /\ (nl = "" \/ nl = nl_str) /\ no_newline g = true).
  { intros s H; unfold after_sep in H.
    destruct (marker_rest s) as [s1|] eqn:M; [|discriminate].
    destruct (marker_rest_some s s1 M) as (d8 & d6 & w7 & -> & Ok).
    destruct (opt_dot_group_some s1 g H) as (dot & nl & -> & D & N & G).
    exists d8, d6, w7, dot, nl; auto. }
  unfold try_sep; intros H.
  destruct (strip_lit "." r) as [s1|] eqn:E1.
  - destruct (after_sep s1) as [g1|] eqn:A1.
    + inversion H; subst g1. apply strip_lit_some in E1.
      destruct (Aft s1 A1) as (d8 & d6 & w7 & dot & nl & Hs & R).
      exists ".", d8, d6, w7, dot, nl; subst; auto.
    + destruct (strip_lit "%2F" r) as [s2|] eqn:E2; [|discriminate].
      apply strip_lit_some in E2.
      destruct (Aft s2 H) as (d8 & d6 & w7 & dot & nl & Hs & R).
      exists "%2F", d8, d6, w7, dot, nl; subst; auto.
  - destruct (strip_lit "%2F" r) as [s2|] eqn:E2; [|discriminate].
    apply strip_lit_some in E2.
    destruct (Aft s2 H) as (d8 & d6 & w7 & dot & nl & Hs & R).
    exists "%2F", d8, d6, w7, dot, nl; subst; auto.
Qed.

Lemma lazy_base_some (s b g : string) :
  lazy_base s = Some (b, g) ->
  exists r, s = b ++ r /\ try_sep r = Some g /\ no_newline b = true
            /\ (forall b1 b2, b = b1 ++ b2 -> b2 <> "" -> try_sep (b2 ++ r) = None).
Proof.
  revert b g; induction s as [|c s IH]; intros b g H; cbn [lazy_base] in H.
  - destruct (try_sep "") as [g'|] eqn:T; [|discriminate].
    inversion H; subst; exists ""; repeat split; auto.
    intros b1 b2 E N; destruct b1, b2; cbn in E; congruence.
  - destruct (try_sep (String c s)) as [g'|] eqn:T.
    + inversion H; subst; exists (String c s); repeat split; auto.
      intros b1 b2 E N; destruct b1, b2; cbn in E; congruence.
    + destruct (Ascii.eqb_spec c newline) as [Hc|Hc]; [discriminate|].
      destruct (lazy_base s) as [[b' g'']|] eqn:L; [|discriminate].
      inversion H; subst; clear H.
      destruct (IH b' g eq_refl) as (r & -> & Tr & Nb & Lz).
      exists r; split; [reflexivity|]; split; [exact Tr|]; split.
      * unfold no_newline in *; cbn [all_class]; rewrite (proj2 (Ascii.eqb_neq c newline) Hc), Nb; reflexivity.
      * intros [|c1 b1] b2 E N.
        -- cbn in E; subst b2; exact T.
        -- cbn in E; inversion E; subst; now apply (Lz b1 b2).
Qed.

Lemma lazy_base_app (b r g : string) :
  no_newline b = true -> try_sep r = Some g -> exists bg, lazy_base (b ++ r) = Some bg.
Proof.
  intros Nb Tr; induction b as [|c b IH]; cbn [lazy_base append].
  - destruct r; cbn [lazy_base]; rewrite Tr; eauto.
  - unfold no_newline in Nb; cbn [all_class] in Nb; apply andb_prop in Nb as [Hc Nb].
    destruct (try_sep (String c (b ++ r))); [eauto|].
    apply negb_true_iff in Hc; rewrite Hc.
    destruct (IH Nb) as [[b' g'] ->]; eauto.
Qed.

Lemma opt_dot_group_complete (dot g nl : string) :
  (dot = "" \/ dot = ".") -> (nl = "" \/ nl = nl_str) -> no_newline g = true ->
  exists g', opt_dot_group (dot ++ g ++ nl) = Some g'.
Proof.
  intros Hd Hnl Hg.
  destruct Hd as [-> | ->].
  - cbn [append]. destruct g as [|c g'].
    + destruct Hnl as [-> | ->]; cbn; eauto.
    + unfold no_newline in Hg; cbn [all_class] in Hg; apply andb_prop in Hg as [Hc Hg'].
      cbn [append opt_dot_group].
      destruct (Ascii.eqb c "."%char).
      * rewrite (dot_star_dollar_app g' nl Hg' Hnl); eauto.
      * assert (D : dot_star_dollar (String c g' ++ nl) = Some (String c g')).
        { apply dot_star_dollar_app; [|exact Hnl].
          unfold no_newline; cbn [all_class]; now rewrite Hc, Hg'. }
        cbn [append] in D; rewrite D; eauto.
  - cbn [append opt_dot_group]; rewrite Ascii.eqb_refl, (dot_star_dollar_app g nl Hg Hnl); eauto.
Qed.

Lemma try_sep_complete (sep d8 d6 w7 dot g nl : string) :
  (sep = "." \/ sep = "%2F") -> marker_pieces_ok d8 d6 w7 ->
  (dot = "" \/ dot = ".") -> (nl = "" \/ nl = nl_str) -> no_newline g = true ->
  exists g', try_sep (sep ++ marker_of d8 d6 w7 ++ dot ++ g ++ nl) = Some g'.
Proof.
  intros Hs Hm Hd Hnl Hg.
  destruct (opt_dot_group_complete dot g nl Hd Hnl Hg) as [g' Hg'].
  assert (A : after_sep (marker_of d8 d6 w7 ++ dot ++ g ++ nl) = Some g').
  { unfold after_sep; now rewrite (marker_rest_app _ _ _ _ Hm). }
  unfold try_sep; destruct Hs as [-> | ->].
  - rewrite strip_lit_app, A; eauto.
  - rewrite strip_lit_app, A. cbn -[after_sep marker_of]. eauto.
Qed.

Lemma str_app_split (b1 r b r0 : string) :
  b1 ++ r = b ++ r0 -> String.length b1 < String.length b ->
  exists b2, b = b1 ++ b2 /\ r = b2 ++ r0 /\ b2 <> "".
Proof.
  revert b; induction b1 as [|c b1 IH]; intros b E L.
  - exists b; cbn in *; split; [reflexivity|]; split; [exact E|].
    intros ->; cbn in L; lia.
  - destruct b as [|c' b]; cbn in L; [lia|].
    cbn in E; inversion E; subst.
    destruct (IH b H1 ltac:(lia)) as (b2 & -> & -> & N).
    exists b2; auto.
Qed.

Lemma try_sep_plain (c : ascii) (s : string) :
  c <> "."%char -> c <> "%"%char -> try_sep (String c s) = None.
Proof.
  intros H1 H2; unfold try_sep; cbn [strip_lit].
  rewrite (proj2 (Ascii.eqb_neq "."%char c) (not_eq_sym H1)),
          (proj2 (Ascii.eqb_neq "%"%char c) (not_eq_sym H2)).
  reflexivity.
Qed.

Lemma lazy_base_unfold (s : string) :
  lazy_base s =
  match try_sep s with
  | Some g => Some (EmptyString, g)
  | None =>
      match s with
      | EmptyString => None
      | String c s' =>
          if Ascii.eqb c newline then None
          else match lazy_base s' with
               | Some (b, g) => Some (String c b, g)
               | None => None
               end
      end
  end.
Proof. destruct s; reflexivity. Qed.

Lemma no_newline_plain (b : string) : plain_base b = true -> no_newline b = true.
Proof.
  induction b as [|c b IH]; [reflexivity|].
  unfold plain_base, no_newline in *; cbn [all_class].
  intros H; apply andb_prop in H as [H1 H2].
  apply andb_prop in H1 as [_ H1]; rewrite H1, IH; auto.
Qed.

Lemma backup_pattern_match_decompose (conflict_base ext candidate : string) :
  backup_pattern_match conflict_base ext candidate = true ->
  exists d8 d6 rest,
    candidate = STVERSIONS_DIR ++ "/" ++ conflict_base ++ "~" ++ d8 ++ "-" ++ d6
                ++ "." ++ ext ++ rest
    /\ String.length d8 = 8%nat /\ all_class is_digit d8 = true
    /\ String.length d6 = 6%nat /\ all_class is_digit d6 = true.
Proof.
  unfold backup_pattern_match; intros H.
  destruct (strip_lit (STVERSIONS_DIR ++ "/" ++ conflict_base ++ "~") candidate)
    as [r1|] eqn:E1; [|discriminate].
  destruct (take_class is_digit 8 r1) as [r2|] eqn:E2; [|discriminate].
  destruct (strip_lit "-" r2) as [r3|] eqn:E3; [|discriminate].
  destruct (take_class is_digit 6 r3) as [r4|] eqn:E4; [|discriminate].
  destruct (strip_lit "." r4) as [r5|] eqn:E5; [|discriminate].
  destruct (strip_lit ext r5) as [r6|] eqn:E6; [|discriminate].
  apply strip_lit_some in E1, E3, E5, E6.
  apply take_class_some in E2 as (d8 & -> & L8 & A8).
  apply take_class_some in E4 as (d6 & -> & L6 & A6).
  exists d8, d6, r6; subst; repeat split; auto.
  rewrite !str_app_assoc; reflexivity.
Qed.

(** The file merged into is never the backup it is merged with. *)
Lemma original_of_not_backup (base_name ext b : string) :
  backup_pattern_match base_name ext b = true -> original_of base_name ext <> b.
Proof.
  intros H E.
  destruct (backup_pattern_match_decompose _ _ _ H) as (d8 & d6 & rest & Hb & L8 & _ & L6 & _).
  assert (String.length (original_of base_name ext)
          <= String.length base_name + 1 + String.length ext) as L.
  { unfold original_of; destruct (String.eqb ext ""); [lia|].
    rewrite !str_length_app; simpl; lia. }
  rewrite E, Hb in L; rewrite !str_length_app in L; cbn in L; lia.
Qed.

Lemma aq_resolve_all (e : env) (cs : list string) : appends_quiet (resolve_all e cs).
Proof.
  induction cs as [|c cs IH]; cbn [resolve_all].
  - apply aq_ret.
  - apply aq_bind; [apply aq_process_conflict|intros ok].
    apply aq_bind; [exact IH|intros rest]; apply aq_ret.
Qed.

Lemma lam_bind {A B} (n1 n2 : nat) (m : M A) (k : A -> M B) :
  logs_at_most n1 m -> (forall a, logs_at_most n2 (k a)) -> logs_at_most (n1 + n2) (bind m k).
Proof.
  intros Hm Hk w; unfold bind.
  destruct (Hm w) as (t1 & H1 & L1).
  destruct (m w) as [[a|ex] w1]; cbn in H1.
  - destruct (Hk a w1) as (t2 & H2 & L2).
    exists (t1 ++ t2)%list; split.
    + rewrite H2, H1; now rewrite app_assoc.
    + rewrite logs_of_app, length_app; lia.
  - exists t1; split; [exact H1 | lia].
Qed.

Lemma lam_mono {A} (n n' : nat) (m : M A) :
  (n <= n')%nat -> logs_at_most n m -> logs_at_most n' m.
Proof. intros Hn H w; destruct (H w) as (t & Ht & L); exists t; split; [exact Ht | lia]. Qed.

Lemma lam_quiet {A} (m : M A) : appends_quiet m -> logs_at_most 0 m.
Proof. intros H w; destruct (H w) as (t & Ht & L); exists t; rewrite L; auto. Qed.

Lemma lam_log (msg : string) : logs_at_most 1 (log_run msg).
Proof. intros w; exists [EvLog msg]; split; reflexivity. Qed.

(** ** Further properties: statements *)

(** X4.  process_conflict changes the tree at two paths at most: the conflict
    path, which it can only delete, and the original built from the
    groups, which it can only overwrite when it already exists.  In
    particular it never creates a file. *)
Theorem process_conflict_footprint (e : env) (p q : string) (w : world) :
  fs (snd (process_conflict e p w)) q = fs w q
  \/ (q = p /\ fs (snd (process_conflict e p w)) q = None)
  \/ (exists base_name ext, CONFLICT_REGEX_match p = Some (base_name, ext)
        /\ q = original_of base_name ext /\ fs w q <> None).
Proof.
  destruct (process_conflict e p w) as [r w'] eqn:Hrun; cbn [snd].
  destruct (option_string_dec (fs w' q) (fs w q)) as [E|E]; [now left|right].
  destruct (process_conflict_fs e p w w' r Hrun) as [_ H]; exact (H q E).
Qed.

Lemma resolve_all_resolved_witness :
  resolve_all (ex_env (QTable []) merge_ok) [ex_conflict] ex_world
    = (Ok [ex_conflict], snd (resolve_all (ex_env (QTable []) merge_ok) [ex_conflict] ex_world))
  /\ fs (snd (resolve_all (ex_env (QTable []) merge_ok) [ex_conflict] ex_world)) ex_conflict
     = None.
Proof.
  split; [reflexivity|].
  destruct (resolve_all_resolved (ex_env (QTable []) merge_ok) [ex_conflict] ex_world
              (snd (resolve_all (ex_env (QTable []) merge_ok) [ex_conflict] ex_world))
              [ex_conflict] eq_refl) as [_ H].
  destruct (H ex_conflict (or_introl eq_refl)) as (_ & _ & Hd); exact Hd.
Defined.

(** X11.  The backup that process_conflict merges with is only read: unless it
    is the conflict path itself, its contents are the same afterwards. *)
Theorem process_conflict_keeps_backup (e : env) (p : string) (w : world)
  (base_name ext b : string)
  (Hm : CONFLICT_REGEX_match p = Some (base_name, ext))
  (Hb : find_backup_file base_name ext (backup_walk e) = Some b)
  (Hbp : b <> p) :
  fs (snd (process_conflict e p w)) b = fs w b.
Proof.
  destruct (process_conflict e p w) as [r w'] eqn:Hrun; cbn [snd].
  destruct (option_string_dec (fs w' b) (fs w b)) as [E|E]; [exact E|exfalso].
  destruct (process_conflict_fs e p w w' r Hrun) as [_ H].
  destruct (H b E) as [[Hq _] | (bn & x & Hm' & Hq & _)]; [contradiction|].
  rewrite Hm in Hm'; inversion Hm'; subst bn x.
  apply find_backup_file_some in Hb as [_ Hb].
  exact (original_of_not_backup _ _ _ Hb (eq_sym Hq)).
Qed.

Lemma process_conflict_keeps_backup_witness :
  CONFLICT_REGEX_match ex_conflict = Some ("notes/a", "md")
  /\ find_backup_file "notes/a" "md" (backup_walk (ex_env (QTable []) merge_ok)) = Some ex_backup
  /\ ex_backup <> ex_conflict
  /\ fs (snd (process_conflict (ex_env (QTable []) merge_ok) ex_conflict ex_world)) ex_backup
     = fs ex_world ex_backup.
Proof.
  refine (conj eq_refl (conj eq_refl (conj _ _))).
  - unfold ex_backup, ex_conflict; discriminate.
  - apply (process_conflict_keeps_backup _ _ _ "notes/a" "md"); [reflexivity | reflexivity |].
    unfold ex_backup, ex_conflict; discriminate.
Defined.

(** X12.  CONFLICT_REGEX, read back: on a match, group 1 has no newline, and
    the path is group 1, the separator [.] or [%2F], the marker
    [sync-conflict-DDDDDDDD-DDDDDD-WWWWWWW], an optional dot, group 2 (no
    newline) and at most one final newline. *)
Theorem CONFLICT_REGEX_match_shape (p base_name ext : string)
  (H : CONFLICT_REGEX_match p = Some (base_name, ext)) :
  no_newline base_name = true
  /\ exists sep d8 d6 w7 dot nl,
       p = base_name ++ sep ++ marker_of d8 d6 w7 ++ dot ++ ext ++ nl
       /\ (sep = "." \/ sep = "%2F") /\ marker_pieces_ok d8 d6 w7
       /\ (dot = "" \/ dot = ".") /\ (nl = "" \/ nl = nl_str) /\ no_newline ext = true.
Proof.
  destruct (lazy_base_some p base_name ext H) as (r & -> & Tr & Nb & _).
  split; [exact Nb|].
  destruct (try_sep_some r ext Tr) as (sep & d8 & d6 & w7 & dot & nl & -> & R).
  exists sep, d8, d6, w7, dot, nl; split; [reflexivity | exact R].
Qed.

Lemma CONFLICT_REGEX_match_shape_witness :
  CONFLICT_REGEX_match ex_conflict = Some ("notes/a", "md")
  /\ no_newline "notes/a" = true
  /\ exists sep d8 d6 w7 dot nl,
       ex_conflict = "notes/a" ++ sep ++ marker_of d8 d6 w7 ++ dot ++ "md" ++ nl
       /\ (sep = "." \/ sep = "%2F") /\ marker_pieces_ok d8 d6 w7
       /\ (dot = "" \/ dot = ".") /\ (nl = "" \/ nl = nl_str) /\ no_newline "md" = true.
Proof.
  split; [vm_compute; reflexivity|].
  exact (CONFLICT_REGEX_match_shape ex_conflict "notes/a" "md" ltac:(vm_compute; reflexivity)).
Defined.

(** X13.  Group 1 is the shortest possible: no shorter prefix of the path is
    followed by a separator, a marker, an optional dot, a newline-free
    rest and at most one final newline. *)
Theorem CONFLICT_REGEX_match_shortest (p base_name ext b1 r : string)
  (H : CONFLICT_REGEX_match p = Some (base_name, ext))
  (Hp : p = b1 ++ r) (Hl : String.length b1 < String.length base_name) :
  ~ exists sep d8 d6 w7 dot g nl,
      r = sep ++ marker_of d8 d6 w7 ++ dot ++ g ++ nl
      /\ (sep = "." \/ sep = "%2F") /\ marker_pieces_ok d8 d6 w7
      /\ (dot = "" \/ dot = ".") /\ (nl = "" \/ nl = nl_str) /\ no_newline g = true.
Proof.
  intros (sep & d8 & d6 & w7 & dot & g & nl & Hr & Hs & Hm & Hd & Hnl & Hg).
  destruct (lazy_base_some p base_name ext H) as (r0 & Hp0 & _ & _ & Lz).
  rewrite Hp in Hp0.
  destruct (str_app_split b1 r base_name r0 Hp0 Hl) as (b2 & Hb & Hr2 & N).
  pose proof (Lz b1 b2 Hb N) as T; rewrite <- Hr2, Hr in T.
  destruct (try_sep_complete sep d8 d6 w7 dot g nl Hs Hm Hd Hnl Hg) as [g' Hg'].
  congruence.
Qed.

Lemma CONFLICT_REGEX_match_shortest_witness :
  CONFLICT_REGEX_match ex_conflict = Some ("notes/a", "md")
  /\ ~ exists sep d8 d6 w7 dot g nl,
      ex_conflict = sep ++ marker_of d8 d6 w7 ++ dot ++ g ++ nl
      /\ (sep = "." \/ sep = "%2F") /\ marker_pieces_ok d8 d6 w7
      /\ (dot = "" \/ dot = ".") /\ (nl = "" \/ nl = nl_str) /\ no_newline g = true.
Proof.
  split; [vm_compute; reflexivity|].
  exact (CONFLICT_REGEX_match_shortest ex_conflict "notes/a" "md" "" ex_conflict
           ltac:(vm_compute; reflexivity) eq_refl ltac:(cbn; lia)).
Defined.

(** X14.  Conversely every path of that shape, with a newline-free prefix, is
    matched, and group 1 is no longer than the prefix: find_conflict_files
    keeps it. *)
Theorem CONFLICT_REGEX_match_complete (b sep d8 d6 w7 dot g nl : string)
  (Hb : no_newline b = true) (Hs : sep = "." \/ sep = "%2F")
  (Hm : marker_pieces_ok d8 d6 w7) (Hd : dot = "" \/ dot = ".")
  (Hnl : nl = "" \/ nl = nl_str) (Hg : no_newline g = true) :
  exists base_name ext,
    CONFLICT_REGEX_match (b ++ sep ++ marker_of d8 d6 w7 ++ dot ++ g ++ nl)
      = Some (base_name, ext)
    /\ (String.length base_name <= String.length b)%nat.
Proof.
  set (r := sep ++ marker_of d8 d6 w7 ++ dot ++ g ++ nl).
  destruct (try_sep_complete sep d8 d6 w7 dot g nl Hs Hm Hd Hnl Hg) as [g' Tr].
  destruct (lazy_base_app b r g' Hb Tr) as [[bn x] L].
  exists bn, x; split; [exact L|].
  destruct (lazy_base_some _ _ _ L) as (r0 & Hp0 & _ & _ & Lz).
  destruct (Nat.le_gt_cases (String.length bn) (String.length b)) as [Le|Gt]; [exact Le|].
  destruct (str_app_split b r bn r0 Hp0 Gt) as (b2 & Hbn & Hr2 & N).
  pose proof (Lz b b2 Hbn N) as T; rewrite <- Hr2 in T; unfold r in T; congruence.
Qed.

Lemma CONFLICT_REGEX_match_complete_witness :
  exists base_name ext,
    CONFLICT_REGEX_match ("notes/a" ++ "." ++ marker_of "20240102" "130000" "abcd123"
                          ++ "." ++ "md" ++ "")
      = Some (base_name, ext)
    /\ (String.length base_name <= String.length "notes/a")%nat.
Proof.
  apply CONFLICT_REGEX_match_complete.
  - reflexivity.
  - left; reflexivity.
  - repeat split.
  - right; reflexivity.
  - left; reflexivity.
  - reflexivity.
Defined.

(** X15.  With a base name free of dots, [%] and newlines, and a dot before a
    newline-free extension, the groups are exactly the base name and the
    extension. *)
Theorem CONFLICT_REGEX_match_plain (b d8 d6 w7 g : string)
  (Hb : plain_base b = true) (Hm : marker_pieces_ok d8 d6 w7) (Hg : no_newline g = true) :
  CONFLICT_REGEX_match (b ++ "." ++ marker_of d8 d6 w7 ++ "." ++ g) = Some (b, g).
Proof.
  unfold CONFLICT_REGEX_match.
  assert (Tr : try_sep ("." ++ marker_of d8 d6 w7 ++ "." ++ g) = Some g).
  { unfold try_sep; rewrite strip_lit_app; unfold after_sep.
    rewrite <- (str_app_nil_r g) at 1; rewrite (marker_rest_app _ _ _ _ Hm).
    cbn [append opt_dot_group]; rewrite Ascii.eqb_refl, str_app_nil_r.
    rewrite <- (str_app_nil_r g) at 1; rewrite (dot_star_dollar_app g "" Hg (or_introl eq_refl)).
    reflexivity. }
  induction b as [|c b IH].
  - cbn [append]; rewrite lazy_base_unfold.
    cbn [append] in Tr; rewrite Tr; reflexivity.
  - unfold plain_base in Hb; cbn [all_class] in Hb.
    apply andb_prop in Hb as [Hc Hb].
    apply andb_prop in Hc as [Hc Hn]; apply andb_prop in Hc as [Hd Hp].
    apply negb_true_iff in Hd, Hp, Hn.
    rewrite (str_cons_app c b), lazy_base_unfold; cbv beta iota.
    rewrite try_sep_plain by (intros ->; discriminate).
    rewrite Hn, (IH Hb); reflexivity.
Qed.

Lemma CONFLICT_REGEX_match_plain_witness :
  plain_base "notes/a" = true
  /\ CONFLICT_REGEX_match ("notes/a" ++ "." ++ marker_of "20240102" "130000" "abcd123"
                           ++ "." ++ "md")
     = Some ("notes/a", "md").
Proof.
  split; [reflexivity|].
  apply CONFLICT_REGEX_match_plain; [reflexivity | repeat split | reflexivity].
Defined.

(** X18.  A run of main only appends to the log, and at most two lines: an
    error of the Syncthing request and a skip message, or the summary. *)
Theorem main_log_lines (e : env) (w : world) :
  exists t, trace (snd (main e w)) = (trace w ++ t)%list /\ (length (logs_of t) <= 2)%nat.
Proof.
  assert (Q : forall ev, (forall m, ev <> EvLog m) -> logs_at_most 0 (emit ev))
    by (intros ev H; apply lam_quiet, aq_emit, H).
  revert w; change (logs_at_most 2 (main e)).
  unfold main.
  apply (lam_bind 0 2).
  { apply lam_quiet; unfold is_obsidian_running; aq_solve. }
  intros running; destruct running.
  { apply (lam_mono 1); [lia | apply lam_log]. }
  apply (lam_bind 1 1).
  { unfold is_syncthing_idle; cbv zeta.
    apply (lam_bind 0 1); [apply Q; discriminate|intros _].
    destruct (sync_status e (status_url (folder_id e))) as [st|err].
    - apply (lam_mono 0); [lia|]; apply lam_quiet, aq_ret.
    - apply (lam_bind 1 0); [apply lam_log | intros _; apply lam_quiet, aq_ret]. }
  intros idle; destruct idle; cbn [negb]; [|apply lam_log].
  apply (lam_bind 0 1); [apply Q; discriminate|intros _].
  apply (lam_bind 0 1).
  { apply lam_quiet; intros w; exists []; split; [symmetry; apply app_nil_r | reflexivity]. }
  intros quiet; destruct quiet; cbn [negb]; [|apply lam_log].
  apply (lam_bind 0 1); [apply Q; discriminate|intros _].
  apply (lam_bind 0 1); [apply Q; discriminate|intros _].
  cbv zeta; apply (lam_bind 0 1); [apply lam_quiet, aq_resolve_all | intros rs; apply lam_log].
Qed.
